(** * StateMachine.js: the machine facade of javascript-state-machine

    A shallow embedding of [src/StateMachine.js] and the properties of its
    configuration compiler, handler registration and transition commands.

    Conventions.
    - A JavaScript string is a [string]: a sequence of code units below 256.
    - A field that the code may leave [undefined] is an [option]; [None] is
      [undefined].
    - A method that can raise returns an [Outcome]: the value returned or the
      error thrown, each with the machine as it is at that moment.  A method
      that returns [this] returns the machine.
    - Handlers and resolvers are host code: what they do is a parameter of
      the model, [call] and [resolve].  They are taken to return normally.
    - Console diagnostics ([config.debug && console...]) are not modelled.
    - The record [Machine] describes a machine that was given a config
      ([this.config] is an object).
    - [ValueMap.js], [Transition.js], [Events.js] and [utils.js] are imported
      by the source but are not part of it; what the model needs of them is
      taken from the specification and marked as such. *)

From Stdlib Require Import Ascii String List Bool Arith Lia.
From stdpp Require Import base option list gmap strings.

Local Open Scope string_scope.
Local Open Scope list_scope.

(** ** JavaScript values *)

Module Js.

(** Identity of a function object; [===] on functions compares it. *)
Definition Fn := nat.

Inductive Value : Type :=
| VUndefined
| VString (s : string)
| VFunction (f : Fn).

#[export] Instance Value_eq_dec : EqDecision Value.
Proof. solve_decision. Defined.

Inductive Error : Type :=
| TypeError (msg : string)
| Error_ (msg : string).

(** Modelled from the spec: [utils.isString] ([utils/utils.js] is not among
    the sources) tells a plain identifier from a resolver function. *)
Definition isString (v : Value) : bool :=
  match v with VString _ => true | _ => false end.

(** Modelled from the spec: [utils.isFunction] tells whether a handler
    argument is callable. *)
Definition isFunction (v : Value) : bool :=
  match v with VFunction _ => true | _ => false end.

(** Truthiness of a string-or-undefined: [undefined] and [''] are falsy. *)
Definition truthy (v : option string) : bool :=
  match v with
  | Some s => negb (String.eqb s "")
  | None => false
  end.

(** [String(v)] as used by [+] on a string-or-undefined. *)
Definition toString (v : option string) : string :=
  match v with Some s => s | None => "undefined" end.

End Js.
Export Js.

(** ** Regular expressions

    A backtracking matcher for the fragment the source uses: character
    classes, greedy [*] and [+] over a class, concatenation, capture groups
    and the greedy optional group [(?: ... )?]. *)

Module RegExp.

Definition chars := list ascii.

Definition code (c : ascii) : nat := nat_of_ascii c.

(** [\w] *)
Definition word (c : ascii) : bool :=
  let n := code c in
  (((48 <=? n) && (n <=? 57)) || ((65 <=? n) && (n <=? 90))
   || (n =? 95) || ((97 <=? n) && (n <=? 122)))%nat.

(** [\s], on code units below 256 *)
Definition space (c : ascii) : bool :=
  let n := code c in
  (((9 <=? n) && (n <=? 13)) || (n =? 32) || (n =? 160))%nat.

(** [.]: anything but a line terminator *)
Definition dot (c : ascii) : bool :=
  let n := code c in negb ((n =? 10) || (n =? 13))%nat.

(** [[...]] over listed characters *)
Definition oneOf (set : string) (c : ascii) : bool :=
  existsb (Ascii.eqb c) (list_ascii_of_string set).

Definition either (p q : ascii -> bool) (c : ascii) : bool := p c || q c.

Inductive regex : Type :=
| Chr (p : ascii -> bool)
| Star (p : ascii -> bool)
| Plus (p : ascii -> bool)
| Cat (r1 r2 : regex)
| Group (i : nat) (r : regex)
| Opt (r : regex).

Definition captures := list (option string).

(** Greedy iteration: the longest run first, then shorter ones. *)
Fixpoint star {R} (p : ascii -> bool) (s : chars) (k : chars -> option R)
  : option R :=
  match s with
  | c :: s' =>
      if p c
      then match star p s' k with
           | Some r => Some r
           | None => k s
           end
      else k s
  | [] => k s
  end.

Definition consumed (s s' : chars) : string :=
  string_of_list_ascii (take (length s - length s') s).

Fixpoint run {R} (r : regex) (s : chars) (caps : captures)
    (k : chars -> captures -> option R) : option R :=
  match r with
  | Chr p =>
      match s with
      | c :: s' => if p c then k s' caps else None
      | [] => None
      end
  | Star p => star p s (fun s' => k s' caps)
  | Plus p =>
      match s with
      | c :: s' => if p c then star p s' (fun s'' => k s'' caps) else None
      | [] => None
      end
  | Cat r1 r2 => run r1 s caps (fun s' caps' => run r2 s' caps' k)
  | Group i r =>
      run r s caps (fun s' caps' => k s' (<[i := Some (consumed s s')]> caps'))
  | Opt r =>
      match run r s caps k with
      | Some x => Some x
      | None => k s caps
      end
  end.

(** A match attempt at the start of [s]; the result lists groups 1..n. *)
Definition matchAt (n : nat) (r : regex) (s : chars) : option captures :=
  run r s (replicate n None) (fun _ caps => Some caps).

(** Leftmost match anywhere in [s]. *)
Fixpoint search (n : nat) (r : regex) (s : chars) : option captures :=
  match matchAt n r s with
  | Some caps => Some caps
  | None =>
      match s with
      | _ :: s' => search n r s'
      | [] => None
      end
  end.

(** [str.match] with the global pattern [\w+]: every maximal run of word characters, or [null]
    when there is none. *)
Fixpoint runs (s : chars) (cur : chars) : list string :=
  match s with
  | c :: s' =>
      if word c then runs s' (cur ++ [c])
      else match cur with
           | [] => runs s' []
           | _ => string_of_list_ascii cur :: runs s' []
           end
  | [] =>
      match cur with
      | [] => []
      | _ => [string_of_list_ascii cur]
      end
  end.

Definition matchWords (s : string) : option (list string) :=
  match runs (list_ascii_of_string s) [] with
  | [] => None
  | ws => Some ws
  end.

Fixpoint cat (rs : list regex) : regex :=
  match rs with
  | [] => Star (fun _ => false)
  | [r] => r
  | r :: rs' => Cat r (cat rs')
  end.

(** The shorthand rule pattern of [initialize], token by token:
    [( \w+ ) \s* [|:=] \s* ( \w+ ) \s* ( [<>-] ) \s* ( \w .* )] *)
Definition shorthand : regex :=
  cat [ Group 0 (Plus word); Star space; Chr (oneOf "|:="); Star space;
        Group 1 (Plus word); Star space; Group 2 (Chr (oneOf "<>-"));
        Star space; Group 3 (Cat (Chr word) (Star dot)) ].

(** The handler id pattern of [on], anchored at the start:
    [^ (?: ( \w+ ) \. )? ( \w+ [-.\w]* ) (?: : ( .* ) )?] *)
Definition handlerId : regex :=
  cat [ Opt (Cat (Group 0 (Plus word)) (Chr (oneOf ".")));
        Group 1 (Cat (Plus word) (Star (either (oneOf "-.") word)));
        Opt (Cat (Chr (oneOf ":")) (Group 2 (Star dot))) ].

(** Shapes of text: a non-empty run of word characters; a run of white
    space; a word character followed by anything on the same line. *)
Definition wordy (s : string) : bool :=
  match list_ascii_of_string s with
  | [] => false
  | cs => forallb word cs
  end.

Definition spaces (s : string) : bool :=
  forallb space (list_ascii_of_string s).

Definition targetText (s : string) : bool :=
  match list_ascii_of_string s with
  | c :: cs => word c && forallb dot cs
  | [] => false
  end.

(** Matching can go no further than [s] with class [p]. *)
Definition stops (p : ascii -> bool) (s : chars) : Prop :=
  match s with
  | [] => True
  | c :: _ => p c = false
  end.

Definition matchShorthand (s : string) : option captures :=
  search 4 shorthand (list_ascii_of_string s).

Definition matchHandlerId (s : string) : option captures :=
  matchAt 3 handlerId (list_ascii_of_string s).

End RegExp.

(** ** ValueMap *)

Module ValueMap.

(** [utils/ValueMap.js] is not among the sources.  The specification treats
    it as an abstract multimap used for table storage, keyed by dotted
    paths: the actions table maps the path of an action and a state to one
    target, the transitions table maps a state to an ordered,
    duplicate-tolerant list of action names, and the registry maps an event
    path to an ordered list of handlers. *)

Section Ops.
Context {V : Type}.

(** Modelled from the spec: [ValueMap.get], what is stored at [path], if
    anything. *)
Definition get (path : string) (m : gmap string V) : option V := m !! path.

(** Modelled from the spec: [ValueMap.set] stores one value at [path]; the
    last write wins. *)
Definition set (path : string) (v : V) (m : gmap string V) : gmap string V :=
  <[path := v]> m.

(** A stored path is [path] itself or lies below it. *)
Definition below (path key : string) : bool :=
  String.eqb key path || String.prefix (path ++ ".") key.

(** Modelled from the spec: [ValueMap.has] with one argument: something is
    stored at [path] or below it (an action is known when it has a target
    from some state). *)
Definition has (path : string) (m : gmap string V) : bool :=
  existsb (below path) (fst <$> map_to_list m).

(** Modelled from the spec: [ValueMap.add] appends to the list at [path]
    rather than replacing it, creating the list if absent. *)
Definition add (path : string) (v : V) (m : gmap string (list V))
  : gmap string (list V) :=
  <[path := default [] (m !! path) ++ [v]]> m.

(** Modelled from the spec: [ValueMap.insert] appends a callable to the
    ordered list at [path], creating the list if absent; it never
    overwrites. *)
Definition insert (path : string) (v : V) (m : gmap string (list V))
  : gmap string (list V) :=
  <[path := default [] (m !! path) ++ [v]]> m.

(** Modelled from the spec: [ValueMap.has] with two arguments: [v] is in
    the list stored at [path]. *)
Definition hasValue `{EqDecision V} (path : string) (v : V)
    (m : gmap string (list V)) : bool :=
  match m !! path with
  | Some vs => bool_decide (v ∈ vs)
  | None => false
  end.
End Ops.

End ValueMap.

(** ** The config object *)

(** A rule of [config.events]: a shorthand string, or an object with [name],
    [from] and [to]; [to] is a state name or a function computing one. *)
Inductive Rule : Type :=
| Shorthand (text : string)
| Structured (name from : string) (to : Value).

(** [event[key]] *)
Definition field (key : string) (event : Rule) : Value :=
  match event with
  | Shorthand _ => VUndefined
  | Structured name from to =>
      if String.eqb key "name" then VString name
      else if String.eqb key "from" then VString from
      else if String.eqb key "to" then to
      else VUndefined
  end.

Module Config.

(** The fields of the config object that the machine reads. *)
Record t : Type := Build {
  events : list Rule;
  initial : option string;
  final : option string;
  defer : bool;
  handlers : list (string * Value);
  debug : bool
}.

Definition with_initial (i : option string) (c : t) : t :=
  Build (events c) i (final c) (defer c) (handlers c) (debug c).

End Config.

(** ** Events and transitions *)

(** Modelled from the spec: [Events.js] is not among the sources.  Payloads
    carry the event type; state and action events also carry their target. *)
Inductive Event : Type :=
| SystemEvent (type : string)
| TransitionEvent (type : string)
| StateEvent (type target : string)
| ActionEvent (type target : string).

Module Transition.

(** Modelled from the spec: the steps of one transition, phase by phase
    ([Transition.js] is not among the sources).  A phase that dispatches
    has two steps: the literal path of the state or action, then the
    wildcard path. *)
Inductive Step : Type :=
| Leave (wildcard : bool)
| ActionStart (wildcard : bool)
| ApplyingState
| Enter (wildcard : bool)
| ActionEnd (wildcard : bool).

(** Modelled from the spec: the transition object.  It records the action,
    the state it leaves, the state it reaches and the arguments, whether it
    is paused, and its phase, kept as the list of steps still to run: all of
    them when pending, none when complete or cleared. *)
Record t : Type := Build {
  action : string;
  from : option string;
  to : option string;
  args : list Value;
  remaining : list Step;
  paused : bool
}.

(** Modelled from the spec: the order of a whole transition: leave the old
    state, start the action, commit the state, enter the new state, end the
    action. *)
Definition schedule : list Step :=
  [ Leave false; Leave true; ActionStart false; ActionStart true;
    ApplyingState;
    Enter false; Enter true; ActionEnd false; ActionEnd true ].

Definition with_remaining (ps : list Step) (x : t) : t :=
  Build (action x) (from x) (to x) (args x) ps (paused x).

Definition with_paused (b : bool) (x : t) : t :=
  Build (action x) (from x) (to x) (args x) (remaining x) b.

(** Modelled from the spec: [clear()] abandons the steps not yet run. *)
Definition clear (x : t) : t := with_paused false (with_remaining [] x).

(** Modelled from the spec: [pause()] sets the flag the driver checks. *)
Definition pause (x : t) : t := with_paused true x.

End Transition.

(** ** Sample configs *)

Module Sample.

(** One rule, [next] from [a] to [b], with [b] final and three handlers. *)
Definition next : Config.t :=
  Config.Build [Structured "next" "a" (VString "b")] None (Some "b") false
    [("a", VFunction 1); ("next", VFunction 2); ("change", VFunction 3)] false.

(** The same rule, initialization deferred. *)
Definition deferred : Config.t :=
  Config.Build [Structured "next" "a" (VString "b")] None None true [] false.

(** A chain of three states in one shorthand string. *)
Definition chain : Config.t :=
  Config.Build [Shorthand "next: a > b > c"] None None false [] false.

(** Two states, named in a shorthand string only. *)
Definition pair : Config.t :=
  Config.Build [Shorthand "next: a > b"] None None false [] false.

(** Two structured rules over four states. *)
Definition crossed : Config.t :=
  Config.Build
    [Structured "n" "a" (VString "b"); Structured "m" "c" (VString "d")]
    None None false [] false.

(** A rule whose target is computed by function 7. *)
Definition resolving : Config.t :=
  Config.Build [Structured "next" "a" (VFunction 7)] None None false [] false.

(** The rule of [next] with a handler, function 1, on the start of the
    action. *)
Definition guarded : Config.t :=
  Config.Build [Structured "next" "a" (VString "b")] None (Some "b") false
    [("start:next", VFunction 1)] false.

(** Two rules with the same name from the same state: the second
    overwrites the target of the first. *)
Definition repeated : Config.t :=
  Config.Build
    [Structured "n" "a" (VString "b"); Structured "n" "a" (VString "c")]
    None None false [] false.

(** A shorthand string with no operator in it. *)
Definition malformed : Config.t :=
  Config.Build [Shorthand "next a b"] None None false
    [("a", VFunction 1)] false.

(** The rule of [next], started in its target state. *)
Definition ended : Config.t :=
  Config.Build [Structured "next" "a" (VString "b")] (Some "b") None false
    [] false.

End Sample.

(** ** Objects used as maps *)

Module Obj.

(** An object literal [{}] filled by assignments, as [getActionsFor] builds
    one: its own keys with their values, in the order the keys were
    created. *)
Definition t : Type := list (string * Value).

Definition digit (c : ascii) : option N :=
  let n := N_of_ascii c in
  if ((48 <=? n) && (n <=? 57))%N then Some (n - 48)%N else None.

Fixpoint number (cs : list ascii) (acc : N) : option N :=
  match cs with
  | [] => Some acc
  | c :: cs' =>
      match digit c with
      | Some d => number cs' (10 * acc + d)%N
      | None => None
      end
  end.

(** A key that is an array index: a canonical decimal numeral below
    [2^32 - 1].  Such keys are enumerated first, in numeric order. *)
Definition arrayIndex (key : string) : option N :=
  match list_ascii_of_string key with
  | [] => None
  | c :: cs =>
      if Ascii.eqb c "0" && negb (bool_decide (cs = [])) then None
      else
        match number (c :: cs) 0 with
        | Some n => if (n <? 4294967295)%N then Some n else None
        | None => None
        end
  end.

Fixpoint assign (key : string) (v : Value) (o : t) : t :=
  match o with
  | [] => [(key, v)]
  | (k, w) :: o' =>
      if String.eqb k key then (k, v) :: o' else (k, w) :: assign key v o'
  end.

(** [o[key] = v] for a string, [undefined] or a function: an existing key
    keeps its place, a new key goes last; assigning to [__proto__] creates
    no own key. *)
Definition set (key : string) (v : Value) (o : t) : t :=
  if String.eqb key "__proto__" then o else assign key v o.

Fixpoint insertSorted (x : N * (string * Value))
    (l : list (N * (string * Value))) : list (N * (string * Value)) :=
  match l with
  | [] => [x]
  | y :: l' =>
      if (fst x <=? fst y)%N then x :: l else y :: insertSorted x l'
  end.

Definition indexed (o : t) : list (N * (string * Value)) :=
  omap (fun e => (fun n => (n, e)) <$> arrayIndex (fst e)) o.

(** The own properties in the order [for ... in] and [Object.keys] visit
    them: array indices in ascending order, then the other keys in creation
    order. *)
Definition entries (o : t) : list (string * Value) :=
  (snd <$> foldr insertSorted [] (indexed o))
  ++ filter (fun e => arrayIndex (fst e) = None) o.

End Obj.

(** ** The machine *)

Section Machine.

(** The context object handed to the constructor, "in which to call all
    handlers": the part of the host that handlers may change freely. *)
Context {Target : Type}.

(** The fields of a [StateMachine] object.  [emitted] is a ghost field: the
    path of every [dispatch] so far, each with the value of [state] at that
    moment. *)
Record Machine : Type := Build_Machine {
  target : Target;
  state : option string;
  states : list string;
  transitions : gmap string (list string);
  actions : gmap string Value;
  handlers : gmap string (list Fn);
  transition : option Transition.t;
  config : Config.t;
  emitted : list (string * option string)
}.

Definition with_target (x : Target) (m : Machine) : Machine :=
  Build_Machine x (state m) (states m) (transitions m) (actions m)
    (handlers m) (transition m) (config m) (emitted m).

Definition with_state (x : option string) (m : Machine) : Machine :=
  Build_Machine (target m) x (states m) (transitions m) (actions m)
    (handlers m) (transition m) (config m) (emitted m).

Definition with_states (x : list string) (m : Machine) : Machine :=
  Build_Machine (target m) (state m) x (transitions m) (actions m)
    (handlers m) (transition m) (config m) (emitted m).

Definition with_transitions (x : gmap string (list string)) (m : Machine)
  : Machine :=
  Build_Machine (target m) (state m) (states m) x (actions m)
    (handlers m) (transition m) (config m) (emitted m).

Definition with_actions (x : gmap string Value) (m : Machine) : Machine :=
  Build_Machine (target m) (state m) (states m) (transitions m) x
    (handlers m) (transition m) (config m) (emitted m).

Definition with_handlers (x : gmap string (list Fn)) (m : Machine) : Machine :=
  Build_Machine (target m) (state m) (states m) (transitions m) (actions m)
    x (transition m) (config m) (emitted m).

Definition with_transition (x : option Transition.t) (m : Machine) : Machine :=
  Build_Machine (target m) (state m) (states m) (transitions m) (actions m)
    (handlers m) x (config m) (emitted m).

Definition with_config (x : Config.t) (m : Machine) : Machine :=
  Build_Machine (target m) (state m) (states m) (transitions m) (actions m)
    (handlers m) (transition m) x (emitted m).

Definition with_emitted (x : list (string * option string)) (m : Machine)
  : Machine :=
  Build_Machine (target m) (state m) (states m) (transitions m) (actions m)
    (handlers m) (transition m) (config m) x.

(** What running a handler does to the machine, and what a resolver
    function returns: both are host code, left abstract. *)
Variable call : Fn -> Event -> Machine -> Machine.
Variable resolve : Fn -> Machine -> list Value -> Value.

(** *** Results of methods that can raise *)

Inductive Outcome (A : Type) : Type :=
| Returned (a : A) (m : Machine)
| Thrown (e : Error) (m : Machine).
Arguments Returned {A} a m.
Arguments Thrown {A} e m.

Definition M (A : Type) : Type := Machine -> Outcome A.

Definition ret {A} (a : A) : M A := fun m => Returned a m.

Definition bind {A B} (c : M A) (k : A -> M B) : M B :=
  fun m =>
    match c m with
    | Returned a m' => k a m'
    | Thrown e m' => Thrown e m'
    end.

Definition throw {A} (e : Error) : M A := fun m => Thrown e m.

Definition modify (f : Machine -> Machine) : M unit :=
  fun m => Returned tt (f m).

(** [list.map(callback)] for a callback that is run for its effect and may
    raise. *)
Fixpoint each {A} (f : A -> M unit) (l : list A) : M unit :=
  match l with
  | [] => ret tt
  | x :: l' => bind (f x) (fun _ => each f l')
  end.

#[local] Instance M_ret : MRet M := @ret.
#[local] Instance M_bind : MBind M := fun A B k c => bind c k.

(** *** dispatch, update *)

(** Ghost: puts [path] on record. *)
Definition record (path : string) (m : Machine) : Machine :=
  with_emitted (emitted m ++ [(path, state m)]) m.

(** [dispatch]: lines 656-666 *)
Definition dispatch (path : string) (event : Event) (m : Machine) : Machine :=
  let m := record path m in
  match ValueMap.get path (handlers m) with
  | Some fns => fold_left (fun m fn => call fn event m) fns m
  | None => m
  end.

(** [update]: lines 239-245 *)
Definition update (name type : string) (m : Machine) : Machine :=
  let event :=
    if String.eqb name "system" then SystemEvent type
    else TransitionEvent type in
  dispatch (name ++ "." ++ type) event m.

(** *** Queries *)

(** [can]: lines 303-310.  No action is listed under an [undefined]
    state. *)
Definition can (action : string) (m : Machine) : bool :=
  match state m with
  | Some s => ValueMap.hasValue s action (transitions m)
  | None => false
  end.

(** [isComplete]: lines 445-448 *)
Definition isComplete (m : Machine) : bool :=
  bool_decide (state m = Config.final (config m)).

(** [isTransitioning], [isPaused], [isStarted]: lines 413-438 *)
Definition isTransitioning (m : Machine) : bool :=
  match transition m with Some _ => true | None => false end.

Definition isPaused (m : Machine) : bool :=
  match transition m with
  | Some t => Transition.paused t
  | None => false
  end.

Definition isStarted (m : Machine) : bool :=
  negb (bool_decide (state m = Some "")).

(** *** Compiling the config *)

(** [add]: lines 552-557 *)
Definition add (action from : string) (to : Value) (m : Machine) : Machine :=
  let m := with_actions (ValueMap.set (action ++ "." ++ from) to (actions m)) m in
  with_transitions (ValueMap.add from action (transitions m)) m.

(** [addState]: lines 700-706.  [isString(state)] is the [VString] case. *)
Definition addState (st : Value) (fsm : Machine) : Machine :=
  match st with
  | VString s =>
      if bool_decide (s ∈ states fsm) then fsm
      else with_states (states fsm ++ [s]) fsm
  | _ => fsm
  end.

(** [addStates]: lines 695-698 *)
Definition addStates (key : string) (rules : list Rule) (fsm : Machine)
  : Machine :=
  fold_left (fun fsm event => addState (field key event) fsm) rules fsm.

(** The members every object literal inherits: [eventLookup[type]] finds
    them too, and they are truthy. *)
Definition inherited (name : string) : bool :=
  existsb (String.eqb name)
    [ "constructor"; "hasOwnProperty"; "isPrototypeOf";
      "propertyIsEnumerable"; "toLocaleString"; "toString"; "valueOf";
      "__defineGetter__"; "__defineSetter__"; "__lookupGetter__";
      "__lookupSetter__"; "__proto__" ].

(** What [+] makes of an inherited member: the text of a native function,
    or of the prototype object. *)
Definition nativeText (name : string) : string :=
  if String.eqb name "__proto__" then "[object Object]"
  else "function " ++ name ++ "() { [native code] }".

(** [eventLookup[type]]: the table of lines 671-686, then the inherited
    members; the result is the family as [addHandler] will read it. *)
Definition eventLookup (type : string) : option string :=
  if String.eqb type "change" then Some "system"
  else if String.eqb type "update" then Some "system"
  else if String.eqb type "complete" then Some "system"
  else if String.eqb type "reset" then Some "system"
  else if String.eqb type "start" then Some "action"
  else if String.eqb type "end" then Some "action"
  else if String.eqb type "leave" then Some "state"
  else if String.eqb type "enter" then Some "state"
  else if String.eqb type "add" then Some "state"
  else if String.eqb type "remove" then Some "state"
  else if String.eqb type "pause" then Some "transition"
  else if String.eqb type "resume" then Some "transition"
  else if String.eqb type "cancel" then Some "transition"
  else if inherited type then Some (nativeText type)
  else None.

(** The registry path built by [addHandler], lines 739-741. *)
Definition handlerPath (event type target : string) : string :=
  if String.eqb event "action" || String.eqb event "state"
  then event ++ "." ++ target ++ "." ++ type
  else event ++ "." ++ type.

(** [addHandler]: lines 717-743.  [isFunction(fn)] is the [VFunction]
    case. *)
Definition addHandler (event type target : string) (fn : Value) : M unit :=
  match fn with
  | VFunction f =>
      modify (fun fsm =>
        with_handlers
          (ValueMap.insert (handlerPath event type target) f (handlers fsm))
          fsm)
  | _ =>
      throw (Error_ ("Error assigning " ++ event ++ "." ++ type
                     ++ " handler; callback is not a Function"))
  end.

(** What [on] makes of an id before it registers anything (lines 604-646):
    [None] when [on] returns without registering, else the family, the
    type and the target text if there is one. *)
Definition parseId (id : string) (m : Machine)
  : option (string * string * option string) :=
  match RegExp.matchHandlerId id with
  | Some [event; Some type; target] =>
      match event with
      | Some e => Some (e, type, target)
      | None =>
          match eventLookup type with
          | Some e => Some (e, type, target)
          | None =>
              if bool_decide (type ∈ states m)
              then Some ("state", "leave", Some type)
              else if ValueMap.has type (actions m)
              then Some ("action", "end", Some type)
              else None
          end
      end
  | _ => None
  end.

(** The targets of lines 644-646: the words of the target text, or the
    wildcard when there is no text; [None] is [null]. *)
Definition targetsOf (target : option string) : option (list string) :=
  if truthy target
  then RegExp.matchWords (default "" target)
  else Some ["*"].

(** [on]: lines 602-649 *)
Definition on (id : string) (fn : Value) : M unit :=
  fun m =>
    match parseId id m with
    | None => Returned tt m
    | Some (event, type, target) =>
        match targetsOf target with
        | Some ts => each (fun target => addHandler event type target fn) ts m
        | None => Thrown (TypeError "Cannot read property 'map' of null") m
        end
    end.

(** One rule of [config.events], lines 189-214. *)
Definition addRule (event : Rule) : M unit :=
  match event with
  | Shorthand text =>
      match RegExp.matchShorthand text with
      | Some [Some name; Some from; Some op; Some to] =>
          if String.eqb op "-"
          then modify (fun m =>
                 add name to (VString from) (add name from (VString to) m))
          else if String.eqb op "<"
          then modify (add name to (VString from))
          else modify (add name from (VString to))
      | _ => throw (TypeError "matches is not iterable")
      end
  | Structured name from to => modify (add name from to)
  end.

(** [initialize]: lines 173-231 *)
Definition initialize (cfg : Config.t) : M unit :=
  modify (with_config cfg) ;;
  modify (addStates "from" (Config.events cfg)) ;;
  modify (addStates "to" (Config.events cfg)) ;;
  modify (fun m =>
    if negb (truthy (Config.initial (config m)))
    then with_config (Config.with_initial (states m !! 0%nat) (config m)) m
    else m) ;;
  each addRule (Config.events cfg) ;;
  each (fun h => on (fst h) (snd h)) (Config.handlers cfg) ;;
  modify (fun m =>
    if negb (Config.defer (config m))
    then with_state (Config.initial (config m)) m
    else m).

(** The object as the constructor sets it up, lines 8-13: the state is the
    empty string, the list and the three tables are empty, and there is no
    transition. *)
Definition blank (tgt : Target) (cfg : Config.t) : Machine :=
  Build_Machine tgt (Some "") [] ∅ ∅ ∅ None cfg [].

(** The constructor, lines 6-19, called with a config. *)
Definition StateMachine (tgt : Target) (cfg : Config.t) : Outcome unit :=
  (initialize cfg ;; modify (update "system" "initialize")) (blank tgt cfg).

(** *** The transition lifecycle *)

(** Modelled from the spec: [Transition.create] is not among the sources.
    It records the action, the current state as [from], the arguments and
    the target: the value the actions table maps [(action, from)] to or,
    when that value is a resolver function, what the resolver returns for
    the machine and the arguments; a resolver returning anything but a
    known state is an error. *)
Definition Transition_create (fsm : Machine) (action : string)
    (rest : list Value) : Error + Transition.t :=
  let from := state fsm in
  let pending to :=
    Transition.Build action from to rest Transition.schedule false in
  match ValueMap.get (action ++ "." ++ toString from) (actions fsm) with
  | Some (VFunction f) =>
      match resolve f fsm rest with
      | VString s =>
          if bool_decide (s ∈ states fsm) then inr (pending (Some s))
          else inl (Error_ ("Invalid state " ++ s))
      | _ => inl (Error_ "Invalid state")
      end
  | Some (VString s) => inr (pending (Some s))
  | _ => inr (pending None)
  end.

(** The target part of a path: the name, or [*]. *)
Definition targetOf (wildcard : bool) (name : string) : string :=
  if wildcard then "*" else name.

(** Modelled from the spec: what each step of the phases of §4.4 does.
    State and action events go to the literal path, then to the wildcard
    path; the state is committed between the start of the action and the
    entering of the new state. *)
Definition runStep (p : Transition.Step) (t : Transition.t) (m : Machine)
  : Machine :=
  let from := toString (Transition.from t) in
  let to := toString (Transition.to t) in
  let action := Transition.action t in
  match p with
  | Transition.Leave w =>
      dispatch ("state." ++ targetOf w from ++ ".leave")
        (StateEvent "leave" from) m
  | Transition.ActionStart w =>
      dispatch ("action." ++ targetOf w action ++ ".start")
        (ActionEvent "start" action) m
  | Transition.ApplyingState =>
      with_state (Transition.to t) m
  | Transition.Enter w =>
      dispatch ("state." ++ targetOf w to ++ ".enter")
        (StateEvent "enter" to) m
  | Transition.ActionEnd w =>
      dispatch ("action." ++ targetOf w action ++ ".end")
        (ActionEvent "end" action) m
  end.

(** Modelled from the spec: natural completion commits [state := to],
    clears the active transition and emits [system.change], then
    [system.complete] if the new state is the final one. *)
Definition complete (t : Transition.t) (m : Machine) : Machine :=
  let m := with_state (Transition.to t) m in
  let m := with_transition None m in
  let m := update "system" "change" m in
  if isComplete m then update "system" "complete" m else m.

(** Modelled from the spec: the driver.  Before each step it checks that
    the machine still has an active transition and that it is not paused
    (a pause "freezes progression before the next handler invocation", a
    cancel lets no later handler fire); it notes the steps left before
    running one, so that a later [resume] continues after it.  With no step
    left the transition completes. *)
Fixpoint drive (ps : list Transition.Step) (m : Machine) : Machine :=
  match ps with
  | [] =>
      match transition m with
      | Some t => if Transition.paused t then m else complete t m
      | None => m
      end
  | p :: ps' =>
      match transition m with
      | Some t =>
          if Transition.paused t then m
          else
            let t := Transition.with_remaining ps' t in
            drive ps' (runStep p t (with_transition (Some t) m))
      | None => m
      end
  end.

(** Modelled from the spec: [transition.exec()] drives the active
    transition from where it stands. *)
Definition Transition_exec (m : Machine) : Machine :=
  match transition m with
  | Some t => drive (Transition.remaining t) m
  | None => m
  end.

(** Modelled from the spec: [transition.resume()] lifts the pause and
    continues from the phase at which it paused. *)
Definition Transition_resume (m : Machine) : Machine :=
  match transition m with
  | Some t =>
      Transition_exec (with_transition (Some (Transition.with_paused false t)) m)
  | None => m
  end.

Definition onTransition (f : Transition.t -> Transition.t) (m : Machine)
  : Machine :=
  with_transition (f <$> transition m) m.

(** *** Commands *)

(** [do]: lines 258-269 *)
Definition do (action : string) (rest : list Value) : M bool :=
  fun m =>
    if can action m then
      match Transition_create m action rest with
      | inl e => Thrown e m
      | inr t =>
          let m := with_transition (Some t) m in
          let m := update "transition" "start" m in
          match transition m with
          | Some _ => Returned true (Transition_exec m)
          | None =>
              Thrown (TypeError "Cannot read property 'exec' of undefined") m
          end
      end
    else Returned false m.

(** [pause]: lines 459-467 *)
Definition pause (m : Machine) : Machine :=
  match transition m with
  | Some _ =>
      let m := onTransition Transition.pause m in
      update "transition" "pause" m
  | None => m
  end.

(** [resume]: lines 474-482 *)
Definition resume : M unit :=
  fun m =>
    match transition m with
    | Some _ =>
        let m := update "transition" "resume" m in
        match transition m with
        | Some _ => Returned tt (Transition_resume m)
        | None =>
            Thrown (TypeError "Cannot read property 'resume' of undefined") m
        end
    | None => Returned tt m
    end.

(** [cancel]: lines 489-499 *)
Definition cancel (m : Machine) : Machine :=
  match transition m with
  | Some t =>
      let m := with_state (Transition.from t) m in
      let m := onTransition Transition.clear m in
      let m := with_transition None m in
      update "transition" "cancel" m
  | None => m
  end.

(** [end]: lines 506-521 *)
Definition end_ (m : Machine) : Machine :=
  match transition m with
  | Some t =>
      let m := with_state (Transition.to t) m in
      let m := onTransition Transition.clear m in
      let m := with_transition None m in
      let m := update "transition" "end" m in
      let m := update "system" "change" m in
      if isComplete m then update "system" "complete" m else m
  | None => m
  end.

(** [reset]: lines 528-538 *)
Definition reset (initial : option string) (m : Machine) : Machine :=
  let m :=
    with_state
      (if truthy initial then initial else Config.initial (config m)) m in
  let m :=
    match transition m with
    | Some _ => with_transition None (onTransition Transition.clear m)
    | None => m
    end in
  update "system" "reset" m.

(** Any sequence of the four commands that act on the active transition. *)
Inductive Command : Type := Pause | Resume | Cancel | End_.

Definition command (c : Command) : M unit :=
  match c with
  | Pause => modify pause
  | Resume => resume
  | Cancel => modify cancel
  | End_ => modify end_
  end.

(** *** Vocabulary of the properties *)

(** A handler that does not call back into the machine: whatever it does,
    it changes the target context only. *)
Definition observer (f : Fn) : Prop :=
  forall ev m, call f ev m = with_target (target (call f ev m)) m.

(** The handlers registered at [path] are observers. *)
Definition observedAt (path : string) (m : Machine) : Prop :=
  forall fns f, handlers m !! path = Some fns -> f ∈ fns -> observer f.

Definition quiet (hs : gmap string (list Fn)) : Prop :=
  forall path fns f, hs !! path = Some fns -> f ∈ fns -> observer f.

Definition observed (m : Machine) : Prop := quiet (handlers m).

(** The functions of [config.handlers] are observers. *)
Definition observedConfig (cfg : Config.t) : Prop :=
  forall id f, (id, VFunction f) ∈ Config.handlers cfg -> observer f.

(** What a step puts on record when the state is [st], and the state
    after it. *)
Definition stepEmits (p : Transition.Step) (t : Transition.t)
    (st : option string) : list (string * option string) :=
  let from := toString (Transition.from t) in
  let to := toString (Transition.to t) in
  let action := Transition.action t in
  match p with
  | Transition.Leave w =>
      [(("state." ++ targetOf w from ++ ".leave")%string, st)]
  | Transition.ActionStart w =>
      [(("action." ++ targetOf w action ++ ".start")%string, st)]
  | Transition.ApplyingState => []
  | Transition.Enter w =>
      [(("state." ++ targetOf w to ++ ".enter")%string, st)]
  | Transition.ActionEnd w =>
      [(("action." ++ targetOf w action ++ ".end")%string, st)]
  end.

Definition stepState (p : Transition.Step) (t : Transition.t)
    (st : option string) : option string :=
  match p with
  | Transition.ApplyingState => Transition.to t
  | _ => st
  end.

Definition completionEmits (cfg : Config.t) (st : option string)
  : list (string * option string) :=
  ("system.change", st)
    :: (if bool_decide (st = Config.final cfg)
        then [("system.complete", st)] else []).

(** What the driver puts on record for the steps [ps] and the completion. *)
Fixpoint driveEmits (cfg : Config.t) (ps : list Transition.Step)
    (t : Transition.t) (st : option string) : list (string * option string) :=
  match ps with
  | [] => completionEmits cfg (Transition.to t)
  | p :: ps' =>
      stepEmits p t st ++ driveEmits cfg ps' t (stepState p t st)
  end.

(** The machine once a transition is over in state [st], with [more] on
    record. *)
Definition settled (st : option string) (more : list (string * option string))
    (m : Machine) : Machine :=
  with_emitted (emitted m ++ more) (with_transition None (with_state st m)).

(** Only the two tables change when a rule is added. *)
Definition sameButTables (m m' : Machine) : Prop :=
  m' = with_transitions (transitions m') (with_actions (actions m') m).

(** Only the registry changes when a handler is registered. *)
Definition sameButHandlers (m m' : Machine) : Prop :=
  m' = with_handlers (handlers m') m.

Definition observerValue (fn : Value) : Prop :=
  forall f, fn = VFunction f -> observer f.

Definition keepsQuiet (m m' : Machine) : Prop :=
  quiet (handlers m) -> quiet (handlers m').

(** The machine between the steps of [initialize]. *)
Definition collated (cfg : Config.t) (m : Machine) : Machine :=
  let m := with_config cfg m in
  let m := addStates "from" (Config.events cfg) m in
  let m := addStates "to" (Config.events cfg) m in
  if negb (truthy (Config.initial (config m)))
  then with_config (Config.with_initial (states m !! 0%nat) (config m)) m
  else m.

Definition started (m : Machine) : Machine :=
  if negb (Config.defer (config m))
  then with_state (Config.initial (config m)) m
  else m.

(** The strings among some values. *)
Definition stateNames (vs : list Value) : list string :=
  omap (fun v => match v with VString s => Some s | _ => None end) vs.

(** First-occurrence order: each name once, where it first appears. *)
Fixpoint firstOccurrences (l : list string) : list string :=
  match l with
  | [] => []
  | x :: l' => x :: filter (fun y => y ≠ x) (firstOccurrences l')
  end.

(** The [from] column of the rule list followed by its [to] column. *)
Definition columns (rules : list Rule) : list Value :=
  map (field "from") rules ++ map (field "to") rules.

Definition pushNew (acc : list string) (s : string) : list string :=
  if bool_decide (s ∈ acc) then acc else acc ++ [s].

(** *** The claims as the specification words them *)

(** Adjacent pairs of a chain of state tokens. *)
Fixpoint adjacent (l : list string) : list (string * string) :=
  match l with
  | a :: l' =>
      match l' with
      | b :: _ => (a, b) :: adjacent l'
      | [] => []
      end
  | [] => []
  end.

(** A chain expanded as the specification says: one rule per adjacent pair,
    all with the same action name. *)
Definition addChain (name : string) (tokens : list string) (m : Machine)
  : Machine :=
  fold_left (fun m ab => add name (fst ab) (VString (snd ab)) m)
    (adjacent tokens) m.

(** The states a rule names, in the order it names them; for a shorthand
    string, every state token of it. *)
Definition namedBy (r : Rule) : list Value :=
  match r with
  | Structured _ from to => [VString from; to]
  | Shorthand text =>
      match RegExp.matchShorthand text with
      | Some [_; Some from; _; Some to] =>
          VString from :: map VString (default [] (RegExp.matchWords to))
      | _ => []
      end
  end.

(** The states list as the specification says: first-occurrence order
    across the rule list, rule by rule. *)
Definition statesAsClaimed (rules : list Rule) : list string :=
  firstOccurrences (stateNames (flat_map namedBy rules)).

(** How many times a path was dispatched. *)
Definition dispatchedTimes (path : string) (m : Machine) : nat :=
  length (filter (fun e => fst e = path) (emitted m)).

(** *** Sample hosts and machines *)

(** Handlers that do nothing at all. *)
Definition silent : Fn -> Event -> Machine -> Machine := fun _ _ m => m.

(** Function 1 pauses the active transition, the way [pause()] does on a
    machine with nothing registered for [transition.pause]; the other
    functions do nothing. *)
Definition pausing : Fn -> Event -> Machine -> Machine :=
  fun f _ m =>
    if Nat.eqb f 1 then
      match transition m with
      | Some _ => record "transition.pause" (onTransition Transition.pause m)
      | None => m
      end
    else m.

(** Function 1 cancels the active transition, the way [cancel()] does on a
    machine with nothing registered for [transition.cancel]; the other
    functions do nothing. *)
Definition cancelling : Fn -> Event -> Machine -> Machine :=
  fun f _ m =>
    if Nat.eqb f 1 then
      match transition m with
      | Some t =>
          record "transition.cancel"
            (with_transition None (with_state (Transition.from t) m))
      | None => m
      end
    else m.

(** A resolver that returns a name no rule mentions. *)
Definition astray : Fn -> Machine -> list Value -> Value :=
  fun _ _ _ => VString "zzz".

(** A machine stopped in the middle of [next], from [a] to [b]. *)
Definition midway (tgt : Target) : Machine :=
  Build_Machine tgt (Some "a") ["a"; "b"]
    (ValueMap.add "a" "next" ∅)
    (ValueMap.set "next.a" (VString "b") ∅)
    ∅
    (Some (Transition.Build "next" (Some "a") (Some "b") []
             [Transition.Enter true; Transition.ActionEnd false;
              Transition.ActionEnd true] true))
    Sample.next [].

(** A machine at rest in [a], from where [next] leads to [b] and [skip] to
    [c]; [next] was added twice. *)
Definition forked (tgt : Target) : Machine :=
  Build_Machine tgt (Some "a") ["a"; "b"; "c"]
    (ValueMap.add "a" "next"
       (ValueMap.add "a" "skip" (ValueMap.add "a" "next" ∅)))
    (ValueMap.set "skip.a" (VString "c")
       (ValueMap.set "next.a" (VString "b") ∅))
    ∅ None Sample.next [].

(** *** The rest of the facade *)

(** [cannot]: lines 318-321 *)
Definition cannot (action : string) (m : Machine) : bool :=
  negb (can action m).

(** [is]: lines 329-336 *)
Definition is_ (st : string) (m : Machine) : bool :=
  bool_decide (Some st = state m).

(** [has]: lines 344-347 *)
Definition has (st : string) (m : Machine) : bool :=
  bool_decide (st ∈ states m).

(** [state || this.state], lines 357 and 371: the state asked about, or the
    current state when none is given. *)
Definition stateOr (st : option string) (m : Machine) : option string :=
  if truthy st then st else state m.

(** [getActionsFor(state)], lines 369-386 with [asMap] false: the list
    stored for the state, [undefined] when there is none. *)
Definition getActionsFor (st : option string) (m : Machine)
  : option (list string) :=
  match stateOr st m with
  | Some s => ValueMap.get s (transitions m)
  | None => None
  end.

(** [getActionsFor(state, true)], lines 369-386 with [asMap] true: an object
    from each action of the list to its target; [actions.map] raises when
    no list is stored for the state. *)
Definition getActionsForMap (st : option string) (m : Machine)
  : Error + Obj.t :=
  match getActionsFor st m with
  | Some acts =>
      inr (fold_left
             (fun o action =>
                Obj.set action
                  (default VUndefined
                     (ValueMap.get (action ++ "." ++ toString (stateOr st m))
                        (actions m)))
                  o)
             acts [])
  | None => inl (TypeError "Cannot read property 'map' of undefined")
  end.

(** [getStatesFor]: lines 355-360 *)
Definition getStatesFor (st : option string) (m : Machine)
  : Error + list Value :=
  match getActionsForMap st m with
  | inr o => inr (snd <$> Obj.entries o)
  | inl e => inl e
  end.

(** [getActionForState]: lines 388-402 *)
Definition getActionForState (st : string) (m : Machine)
  : Error + option string :=
  if has st m then
    match getActionsForMap None m with
    | inr o =>
        inr (fst <$> find (fun e => bool_decide (snd e = VString st))
                       (Obj.entries o))
    | inl e => inl e
    end
  else inr None.

(** [go]: lines 279-295 *)
Definition go (st : string) : M bool :=
  fun m =>
    if has st m then
      match getActionForState st m with
      | inr (Some action) =>
          if truthy (Some action) then do action [] m else Returned false m
      | inr None => Returned false m
      | inl e => Thrown e m
      end
    else Returned false m.

(** [remove]: lines 559-562.  [this.states] is an array, and arrays have no
    [remove]. *)
Definition remove (action from : string) (to : Value) : M unit :=
  throw (TypeError "this.states.remove is not a function").

(** [off]: lines 651-654 *)
Definition off (path : string) (fn : Value) (m : Machine) : Machine := m.

(** *** Vocabulary of the further properties *)

(** What a regular expression accepts. *)
Inductive accepts : RegExp.regex -> list ascii -> Prop :=
| accepts_chr p c : p c = true -> accepts (RegExp.Chr p) [c]
| accepts_star p w : forallb p w = true -> accepts (RegExp.Star p) w
| accepts_plus p c w :
    p c = true -> forallb p w = true -> accepts (RegExp.Plus p) (c :: w)
| accepts_cat r1 r2 w1 w2 :
    accepts r1 w1 -> accepts r2 w2 -> accepts (RegExp.Cat r1 r2) (w1 ++ w2)
| accepts_group i r w : accepts r w -> accepts (RegExp.Group i r) w
| accepts_skip r : accepts (RegExp.Opt r) []
| accepts_opt r w : accepts r w -> accepts (RegExp.Opt r) w.

(** A rule is a structured record. *)
Definition structured (r : Rule) : Prop :=
  exists name from to, r = Structured name from to.

(** The names of the structured rules that leave state [s], in rule order. *)
Definition leaving (s : string) (rules : list Rule) : list string :=
  omap (fun r =>
          match r with
          | Structured name from _ =>
              if String.eqb from s then Some name else None
          | Shorthand _ => None
          end) rules.

(** The targets of the structured rules stored under the path [key], in
    rule order. *)
Definition storedAt (key : string) (rules : list Rule) : list Value :=
  omap (fun r =>
          match r with
          | Structured name from to =>
              if String.eqb (name ++ "." ++ from) key then Some to else None
          | Shorthand _ => None
          end) rules.

(** Every action listed under a state has an entry in the actions table. *)
Definition inStep (m : Machine) : Prop :=
  forall (s : string) (acts : list string) (a : string),
    transitions m !! s = Some acts -> a ∈ acts ->
    is_Some (actions m !! (a ++ "." ++ s)%string).

(** None of the characters of [text] is an operator of the shorthand. *)
Definition operatorFree (text : string) : bool :=
  forallb (fun c => negb (RegExp.oneOf "<>-" c)) (list_ascii_of_string text).

(** What [this.actions.get(action + '.' + state)] gives: the target, or
    [undefined]. *)
Definition targetAt (s : string) (m : Machine) (action : string) : Value :=
  default VUndefined (ValueMap.get (action ++ "." ++ s) (actions m)).

(** The own keys of the object built from the list [acts]: each name once,
    where it first appears, [__proto__] left out. *)
Definition ownKeys (acts : list string) : list string :=
  firstOccurrences (filter (fun a => a ≠ "__proto__") acts).


(** Every list of the registry [hs] is still there in [hs'], with nothing
    dropped and nothing moved: at most, functions were appended. *)
Definition grown (hs hs' : gmap string (list Fn)) : Prop :=
  forall path fns,
    hs !! path = Some fns -> exists more, hs' !! path = Some (fns ++ more).

(** The registry after [f] was appended once for each target, in order. *)
Definition registered (event type : string) (f : Fn) (targets : list string)
    (hs : gmap string (list Fn)) : gmap string (list Fn) :=
  fold_left (fun hs target => ValueMap.insert (handlerPath event type target) f hs)
    targets hs.

(** ** Properties *)

(** *** Handlers that only observe *)

Lemma with_target_twice x y m :
  with_target x (with_target y m) = with_target x m.
Proof. reflexivity. Qed.

Lemma with_target_same m : with_target (target m) m = m.
Proof. destruct m; reflexivity. Qed.

Lemma call_observers fns ev :
  forall m, (forall f, f ∈ fns -> observer f) ->
  exists x, fold_left (fun m fn => call fn ev m) fns m = with_target x m.
Proof.
  induction fns as [|f fns IH]; intros m Hobs; simpl.
  - exists (target m). symmetry. apply with_target_same.
  - rewrite (Hobs f) by (left; reflexivity).
    destruct (IH (with_target (target (call f ev m)) m)) as [x Hx].
    + intros g Hg. apply Hobs. right. exact Hg.
    + exists x. rewrite Hx. apply with_target_twice.
Qed.

Lemma dispatch_observedAt path ev m :
  observedAt path m ->
  exists x, dispatch path ev m = with_target x (record path m).
Proof.
  intros Hobs. unfold dispatch, ValueMap.get.
  change (handlers (record path m)) with (handlers m).
  destruct (handlers m !! path) as [fns|] eqn:Hfns.
  - apply call_observers. intros f Hf. exact (Hobs fns f Hfns Hf).
  - exists (target m). destruct m; reflexivity.
Qed.

Lemma dispatch_observed path ev m :
  observed m ->
  exists x, dispatch path ev m = with_target x (record path m).
Proof. intros Hobs. apply dispatch_observedAt. exact (Hobs path). Qed.

Lemma update_observedAt name type m :
  observedAt (name ++ "." ++ type) m ->
  exists x,
    update name type m = with_target x (record (name ++ "." ++ type) m).
Proof. intros Hobs. unfold update. apply dispatch_observedAt. exact Hobs. Qed.

Lemma update_observed name type m :
  observed m ->
  exists x,
    update name type m = with_target x (record (name ++ "." ++ type) m).
Proof. intros Hobs. apply update_observedAt. exact (Hobs _). Qed.

(** Replaces every dispatch in the goal, innermost first, by its record. *)
Ltac observe H :=
  repeat match goal with
  | |- context [update ?n ?ty ?m0] =>
      lazymatch m0 with
      | context [update _ _ _] => fail
      | context [dispatch _ _ _] => fail
      | _ => idtac
      end;
      let x := fresh "x" in
      let E := fresh "E" in
      destruct (update_observed n ty m0 H) as [x E]; rewrite E; clear E
  | |- context [dispatch ?pa ?ev ?m0] =>
      lazymatch m0 with
      | context [update _ _ _] => fail
      | context [dispatch _ _ _] => fail
      | _ => idtac
      end;
      let x := fresh "x" in
      let E := fresh "E" in
      destruct (dispatch_observed pa ev m0 H) as [x E]; rewrite E; clear E
  end.

(** *** Commands on a machine with no active transition *)

Lemma pause_idle m : transition m = None -> pause m = m.
Proof. intros H. unfold pause. rewrite H. reflexivity. Qed.

Lemma resume_idle m : transition m = None -> resume m = Returned tt m.
Proof. intros H. unfold resume. rewrite H. reflexivity. Qed.

Lemma cancel_idle m : transition m = None -> cancel m = m.
Proof. intros H. unfold cancel. rewrite H. reflexivity. Qed.

Lemma end_idle m : transition m = None -> end_ m = m.
Proof. intros H. unfold end_. rewrite H. reflexivity. Qed.

Lemma drive_idle ps m : transition m = None -> drive ps m = m.
Proof. intros H. destruct ps; simpl; rewrite H; reflexivity. Qed.


Lemma commands_idle cs m :
  transition m = None -> each command cs m = Returned tt m.
Proof.
  intros H. induction cs as [|c cs IH]; simpl; [reflexivity|].
  unfold bind.
  destruct c; simpl; unfold modify;
    rewrite ?pause_idle, ?resume_idle, ?cancel_idle, ?end_idle by exact H;
    exact IH.
Qed.

(** C10.  On a machine with no active transition, [pause()], [resume()],
    [cancel()] and [end()] change nothing and return the machine as it
    was: the state is the same and nothing was dispatched. *)
Theorem commands_without_transition m :
  transition m = None ->
  pause m = m /\ resume m = Returned tt m /\ cancel m = m /\ end_ m = m.
Proof.
  intros H.
  repeat split;
    [apply pause_idle | apply resume_idle | apply cancel_idle | apply end_idle];
    exact H.
Qed.

(** *** cancel and end *)


(** C3.  On a machine with an active transition, whose [transition.end],
    [system.change] and [system.complete] handlers only observe, [end()]
    sets [state] to the transition's [to] whatever steps the transition
    had left, discards the transition, and dispatches [transition.end],
    then [system.change], then [system.complete] exactly when the new state
    is [config.final]; no state or action path is dispatched. *)
Theorem end_commits m t :
  transition m = Some t ->
  observedAt "transition.end" m ->
  observedAt "system.change" m ->
  observedAt "system.complete" m ->
  exists x,
    end_ m =
      with_target x
        (settled (Transition.to t)
           (("transition.end", Transition.to t)
              :: completionEmits (config m) (Transition.to t)) m).
Proof.
  intros Ht Hend Hchange Hcomplete. unfold end_. rewrite Ht.
  match goal with
  | |- context [update "transition" "end" ?m0] =>
      destruct (update_observedAt "transition" "end" m0 Hend) as [x1 E];
      rewrite E; clear E
  end.
  match goal with
  | |- context [update "system" "change" ?m0] =>
      destruct (update_observedAt "system" "change" m0 Hchange) as [x2 E];
      rewrite E; clear E
  end.
  unfold isComplete, completionEmits; simpl.
  destruct (bool_decide (Transition.to t = Config.final (config m))).
  - match goal with
    | |- context [update "system" "complete" ?m0] =>
        destruct (update_observedAt "system" "complete" m0 Hcomplete)
          as [x3 E];
        rewrite E; clear E
    end.
    eexists. destruct m; unfold settled, record; simpl.
    rewrite <- !app_assoc. reflexivity.
  - eexists. destruct m; unfold settled, record; simpl.
    rewrite <- !app_assoc. reflexivity.
Qed.

(** *** The driver under observing handlers *)

Lemma runStep_observed p t m :
  observed m ->
  exists x,
    runStep p t m =
      with_target x
        (with_emitted (emitted m ++ stepEmits p t (state m))
           (with_state (stepState p t (state m)) m)).
Proof.
  intros Hobs. destruct p; unfold runStep; observe Hobs;
    try (eexists; destruct m; reflexivity).
  exists (target m). destruct m; simpl. rewrite app_nil_r. reflexivity.
Qed.

Lemma complete_observed t m :
  observed m ->
  exists x,
    complete t m =
      with_target x
        (settled (Transition.to t)
           (completionEmits (config m) (Transition.to t)) m).
Proof.
  intros Hobs. unfold complete. observe Hobs.
  unfold isComplete, completionEmits; simpl.
  destruct (bool_decide (Transition.to t = Config.final (config m))).
  - observe Hobs. eexists. destruct m; unfold settled, record; simpl.
    rewrite <- !app_assoc. reflexivity.
  - eexists. destruct m; unfold settled, record; simpl. reflexivity.
Qed.

Lemma driveEmits_remaining cfg ps qs t st :
  driveEmits cfg ps (Transition.with_remaining qs t) st
  = driveEmits cfg ps t st.
Proof.
  revert st. induction ps as [|p ps IH]; intros st; simpl; [reflexivity|].
  rewrite IH. destruct p; reflexivity.
Qed.

(** Left alone by the handlers, the driver runs every step that is left
    and completes the transition. *)
Lemma drive_observed ps :
  forall m t,
    observed m ->
    transition m = Some t ->
    Transition.paused t = false ->
    exists x,
      drive ps m =
        with_target x
          (settled (Transition.to t)
             (driveEmits (config m) ps t (state m)) m).
Proof.
  induction ps as [|p ps IH]; intros m t Hobs Ht Hp; simpl; rewrite Ht, Hp.
  - apply complete_observed. exact Hobs.
  - set (t' := Transition.with_remaining ps t).
    destruct (runStep_observed p t' (with_transition (Some t') m) Hobs)
      as [x Hx].
    rewrite Hx.
    match goal with
    | |- context [drive ps ?m1] =>
        destruct (IH m1 t' Hobs eq_refl Hp) as [y Hy]
    end.
    exists y. rewrite Hy. subst t'.
    destruct m; unfold settled; simpl.
    rewrite driveEmits_remaining, <- app_assoc.
    destruct p; reflexivity.
Qed.

(** *** What compiling a config touches *)

Lemma each_inv {A} (f : A -> M unit) (R : Machine -> Machine -> Prop)
    (l : list A) :
  (forall m, R m m) ->
  (forall a b c, R a b -> R b c -> R a c) ->
  (forall x, x ∈ l -> forall m m', f x m = Returned tt m' -> R m m') ->
  forall m m', each f l m = Returned tt m' -> R m m'.
Proof.
  intros Hrefl Htrans. induction l as [|x l IH]; intros Hf m m' H; simpl in H.
  - inversion H. apply Hrefl.
  - unfold bind in H. destruct (f x m) as [[] m1|e m1] eqn:Hx; [|discriminate].
    apply (Htrans _ m1).
    + apply (Hf x); [left|exact Hx].
    + apply IH; [|exact H]. intros y Hy. apply Hf. right. exact Hy.
Qed.

Lemma sameButTables_refl m : sameButTables m m.
Proof. destruct m; reflexivity. Qed.

Lemma sameButTables_trans a b c :
  sameButTables a b -> sameButTables b c -> sameButTables a c.
Proof.
  unfold sameButTables. intros -> ->. destruct a; reflexivity.
Qed.

Lemma sameButHandlers_refl m : sameButHandlers m m.
Proof. destruct m; reflexivity. Qed.

Lemma sameButHandlers_trans a b c :
  sameButHandlers a b -> sameButHandlers b c -> sameButHandlers a c.
Proof.
  unfold sameButHandlers. intros -> ->. destruct a; reflexivity.
Qed.

Lemma add_tables action from to m : sameButTables m (add action from to m).
Proof. destruct m; reflexivity. Qed.

Lemma addRule_tables r m m' :
  addRule r m = Returned tt m' -> sameButTables m m'.
Proof.
  unfold addRule, modify, throw. intros H.
  repeat case_match; simplify_eq;
    repeat (eapply sameButTables_trans; [|apply add_tables]);
    apply sameButTables_refl.
Qed.

Lemma rules_tables rs m m' :
  each addRule rs m = Returned tt m' -> sameButTables m m'.
Proof.
  apply each_inv.
  - apply sameButTables_refl.
  - apply sameButTables_trans.
  - intros r _. apply addRule_tables.
Qed.

Lemma addHandler_handlers event type tg fn m m' :
  addHandler event type tg fn m = Returned tt m' -> sameButHandlers m m'.
Proof.
  unfold addHandler, modify, throw. intros H.
  destruct fn; simplify_eq. destruct m; reflexivity.
Qed.

Lemma on_handlers id fn m m' :
  on id fn m = Returned tt m' -> sameButHandlers m m'.
Proof.
  unfold on. intros H.
  destruct (parseId id m) as [[[event type] tg]|];
    [|simplify_eq; apply sameButHandlers_refl].
  destruct (targetsOf tg) as [ts|]; [|discriminate].
  revert H. apply each_inv.
  - apply sameButHandlers_refl.
  - apply sameButHandlers_trans.
  - intros x _. apply addHandler_handlers.
Qed.

Lemma handlers_handlers (hs : list (string * Value)) m m' :
  each (fun h => on (fst h) (snd h)) hs m = Returned tt m' ->
  sameButHandlers m m'.
Proof.
  apply each_inv.
  - apply sameButHandlers_refl.
  - apply sameButHandlers_trans.
  - intros x _. apply on_handlers.
Qed.

(** Registering observers keeps the registry quiet. *)
Lemma quiet_empty : quiet ∅.
Proof. intros path fns f H. rewrite lookup_empty in H. discriminate. Qed.

Lemma quiet_insert path f hs :
  quiet hs -> observer f -> quiet (ValueMap.insert path f hs).
Proof.
  intros Hq Hf path' fns g Hlk Hg. unfold ValueMap.insert in Hlk.
  destruct (decide (path = path')) as [->|Hne].
  - rewrite lookup_insert_eq in Hlk. simplify_eq.
    apply elem_of_app in Hg as [Hg|Hg].
    + destruct (hs !! path') as [old|] eqn:Hold; simpl in Hg.
      * exact (Hq path' old g Hold Hg).
      * inversion Hg.
    + apply list_elem_of_singleton in Hg. subst g. exact Hf.
  - rewrite lookup_insert_ne in Hlk by exact Hne.
    exact (Hq path' fns g Hlk Hg).
Qed.

Lemma on_quiet id fn m m' :
  observerValue fn -> on id fn m = Returned tt m' -> keepsQuiet m m'.
Proof.
  intros Hfn. unfold on. intros H.
  destruct (parseId id m) as [[[event type] tg]|];
    [|simplify_eq; intros Hq; exact Hq].
  destruct (targetsOf tg) as [ts|]; [|discriminate].
  revert H. apply each_inv.
  - intros a Hq. exact Hq.
  - intros a b c Hab Hbc Hq. apply Hbc, Hab, Hq.
  - intros x _ a b Hadd Hq. unfold addHandler, modify, throw in Hadd.
    destruct fn as [| |f]; simplify_eq. simpl.
    apply quiet_insert; [exact Hq|]. apply Hfn. reflexivity.
Qed.

Lemma handlers_quiet (hs : list (string * Value)) m m' :
  (forall h, h ∈ hs -> observerValue (snd h)) ->
  each (fun h => on (fst h) (snd h)) hs m = Returned tt m' ->
  keepsQuiet m m'.
Proof.
  intros Hhs. apply each_inv.
  - intros a Hq. exact Hq.
  - intros a b c Hab Hbc Hq. apply Hbc, Hab, Hq.
  - intros h Hh a b. apply on_quiet. apply Hhs. exact Hh.
Qed.

Lemma initialize_steps cfg m0 m :
  initialize cfg m0 = Returned tt m ->
  exists m2 m3,
    each addRule (Config.events cfg) (collated cfg m0) = Returned tt m2
    /\ each (fun h => on (fst h) (snd h)) (Config.handlers cfg) m2
       = Returned tt m3
    /\ m = started m3.
Proof.
  unfold initialize, mbind, M_bind, bind, modify. intros H.
  change (each addRule (Config.events cfg) (collated cfg m0))
    with (each addRule (Config.events cfg)
            (let m := with_config cfg m0 in
             let m := addStates "from" (Config.events cfg) m in
             let m := addStates "to" (Config.events cfg) m in
             if negb (truthy (Config.initial (config m)))
             then with_config
                    (Config.with_initial (states m !! 0%nat) (config m)) m
             else m)).
  cbv zeta.
  destruct (each addRule _ _) as [[] m2|] eqn:H2; [|discriminate].
  destruct (each _ (Config.handlers cfg) m2) as [[] m3|] eqn:H3;
    [|discriminate].
  exists m2, m3. simplify_eq. auto.
Qed.

Lemma addState_states v m :
  addState v m
  = with_states (fold_left pushNew (stateNames [v]) (states m)) m.
Proof.
  destruct v as [|s|f]; simpl; try (destruct m; reflexivity).
  unfold pushNew. destruct (bool_decide (s ∈ states m));
    [destruct m|]; reflexivity.
Qed.

Lemma addStates_states key rs :
  forall m,
    addStates key rs m
    = with_states
        (fold_left pushNew (stateNames (map (field key) rs)) (states m)) m.
Proof.
  unfold addStates.
  induction rs as [|r rs IH]; intros m; [destruct m; reflexivity|].
  cbn [fold_left map]. rewrite IH, addState_states.
  destruct (field key r); destruct m; reflexivity.
Qed.

Lemma filter_pushed (acc : list string) x (l : list string) :
  filter (fun y => y ∉ acc ++ [x]) l
  = filter (fun y => y ∉ acc) (filter (fun y => y ≠ x) l).
Proof.
  induction l as [|y l IH]; [reflexivity|].
  rewrite (filter_cons (fun y => y ≠ x)).
  destruct (decide (y ≠ x)) as [Hne|Heq].
  - rewrite !filter_cons, IH.
    destruct (decide (y ∉ acc ++ [x])) as [H1|H1];
      destruct (decide (y ∉ acc)) as [H2|H2]; try reflexivity.
    + exfalso. apply H2. intros Hin. apply H1. apply elem_of_app. auto.
    + exfalso. apply H1. intros Hin. apply elem_of_app in Hin as [Hin|Hin].
      * exact (H2 Hin).
      * apply list_elem_of_singleton in Hin. exact (Hne Hin).
  - rewrite filter_cons, IH.
    destruct (decide (y ∉ acc ++ [x])) as [H1|H1]; [|reflexivity].
    exfalso. apply H1. apply elem_of_app. right.
    apply list_elem_of_singleton. destruct (decide (y = x)); tauto.
Qed.

Lemma filter_known (acc : list string) x (l : list string) :
  x ∈ acc ->
  filter (fun y => y ∉ acc) (filter (fun y => y ≠ x) l)
  = filter (fun y => y ∉ acc) l.
Proof.
  intros Hx. induction l as [|y l IH]; [reflexivity|].
  rewrite (filter_cons (fun y => y ≠ x)).
  destruct (decide (y ≠ x)) as [Hne|Heq].
  - rewrite !filter_cons, IH. reflexivity.
  - rewrite filter_cons, IH.
    destruct (decide (y ∉ acc)) as [H1|H1]; [|reflexivity].
    exfalso. apply H1. destruct (decide (y = x)) as [->|]; tauto.
Qed.

Lemma pushNew_firstOccurrences l :
  forall acc,
    fold_left pushNew l acc
    = acc ++ filter (fun y => y ∉ acc) (firstOccurrences l).
Proof.
  induction l as [|x l IH]; intros acc; simpl.
  - rewrite app_nil_r. reflexivity.
  - rewrite IH. unfold pushNew. rewrite filter_cons.
    destruct (decide (x ∈ acc)) as [Hin|Hout].
    + rewrite bool_decide_eq_true_2 by exact Hin.
      destruct (decide (x ∉ acc)); [tauto|].
      rewrite filter_known by exact Hin. reflexivity.
    + rewrite bool_decide_eq_false_2 by exact Hout.
      destruct (decide (x ∉ acc)); [|tauto].
      rewrite filter_pushed, <- app_assoc. reflexivity.
Qed.

Lemma firstOccurrences_elem x l : x ∈ firstOccurrences l -> x ∈ l.
Proof.
  induction l as [|y l IH]; simpl; [auto|].
  intros H. apply elem_of_cons in H as [->|H]; [left|].
  apply list_elem_of_filter in H as [_ H]. right. auto.
Qed.

Lemma firstOccurrences_NoDup l : NoDup (firstOccurrences l).
Proof.
  induction l as [|x l IH]; simpl; [constructor|].
  constructor.
  - intros H. apply list_elem_of_filter in H as [H _]. exact (H eq_refl).
  - apply NoDup_filter. exact IH.
Qed.

Lemma filter_nothing_known (l : list string) :
  filter (fun y => y ∉ @nil string) l = l.
Proof.
  induction l as [|y l IH]; [reflexivity|].
  rewrite filter_cons, IH.
  destruct (decide (y ∉ [])) as [|H]; [reflexivity|].
  exfalso. apply H. apply not_elem_of_nil.
Qed.

Lemma collated_states cfg m :
  states m = [] ->
  states (collated cfg m)
  = firstOccurrences (stateNames (columns (Config.events cfg))).
Proof.
  intros Hnil. unfold collated. cbv zeta.
  match goal with
  | |- states (if ?b then with_config ?c ?m1 else ?m1) = _ =>
      assert (states (if b then with_config c m1 else m1) = states m1) as ->
        by (destruct b; reflexivity)
  end.
  rewrite !addStates_states. simpl. rewrite Hnil.
  rewrite <- fold_left_app.
  unfold columns, stateNames. rewrite omap_app.
  rewrite pushNew_firstOccurrences. simpl.
  apply filter_nothing_known.
Qed.

Lemma collated_frame cfg m :
  exists sts i,
    collated cfg m = with_config (Config.with_initial i cfg) (with_states sts m).
Proof.
  unfold collated. cbv zeta. rewrite !addStates_states. simpl.
  match goal with
  | |- context [if ?b then _ else _] => destruct b
  end.
  - eexists _, _. reflexivity.
  - eexists _, (Config.initial cfg). destruct cfg; reflexivity.
Qed.

(** [initialize] leaves the target, the active transition and the record
    of dispatches alone; the state is left alone too when [config.defer]
    is set, and is the initial state otherwise. *)
Lemma initialize_frame cfg m0 m :
  initialize cfg m0 = Returned tt m ->
  exists sts trs acts hs i,
    m = Build_Machine (target m0)
          (if Config.defer cfg then state m0 else i)
          sts trs acts hs (transition m0)
          (Config.with_initial i cfg) (emitted m0).
Proof.
  intros H. apply initialize_steps in H as (m2 & m3 & H2 & H3 & ->).
  apply rules_tables in H2. apply handlers_handlers in H3.
  destruct (collated_frame cfg m0) as (sts & i & Hc).
  rewrite Hc in H2. unfold sameButTables in H2. unfold sameButHandlers in H3.
  rewrite H2 in H3. rewrite H3. unfold started. simpl.
  exists sts, (transitions m2), (actions m2), (handlers m3), i.
  destruct (Config.defer cfg); reflexivity.
Qed.

Lemma initialize_states cfg m0 m :
  states m0 = [] ->
  initialize cfg m0 = Returned tt m ->
  states m = firstOccurrences (stateNames (columns (Config.events cfg))).
Proof.
  intros Hnil H. apply initialize_steps in H as (m2 & m3 & H2 & H3 & ->).
  apply rules_tables in H2. apply handlers_handlers in H3.
  unfold sameButTables in H2. unfold sameButHandlers in H3.
  assert (states (started m3) = states m3) as ->
    by (unfold started; destruct (negb _); reflexivity).
  rewrite H3. simpl. rewrite H2. simpl.
  apply collated_states. exact Hnil.
Qed.

Lemma initialize_quiet cfg m0 m :
  observedConfig cfg ->
  initialize cfg m0 = Returned tt m ->
  quiet (handlers m0) -> quiet (handlers m).
Proof.
  intros Hcfg H Hq. apply initialize_steps in H as (m2 & m3 & H2 & H3 & ->).
  apply rules_tables in H2. unfold sameButTables in H2.
  assert (handlers (started m3) = handlers m3) as ->
    by (unfold started; destruct (negb _); reflexivity).
  eapply handlers_quiet; [|exact H3|].
  - intros [id fn] Hin f Hf. simpl in Hf. subst fn. exact (Hcfg id f Hin).
  - rewrite H2. simpl.
    destruct (collated_frame cfg m0) as (sts & i & ->). exact Hq.
Qed.

(** *** Construction *)

Lemma construction tgt cfg m :
  StateMachine tgt cfg = Returned tt m ->
  exists m1,
    initialize cfg (blank tgt cfg) = Returned tt m1
    /\ m = update "system" "initialize" m1.
Proof.
  unfold StateMachine, mbind, M_bind, bind, modify. intros H.
  destruct (initialize cfg (blank tgt cfg)) as [[] m1|]; [|discriminate].
  exists m1. simplify_eq. auto.
Qed.

Lemma construction_observed tgt cfg m :
  observedConfig cfg ->
  StateMachine tgt cfg = Returned tt m ->
  exists m1 x,
    initialize cfg (blank tgt cfg) = Returned tt m1
    /\ observed m1
    /\ m = with_target x (record "system.initialize" m1).
Proof.
  intros Hcfg H. apply construction in H as (m1 & Hi & ->).
  assert (observed m1) as Hobs
    by (eapply initialize_quiet; [exact Hcfg|exact Hi|apply quiet_empty]).
  destruct (update_observed "system" "initialize" m1 Hobs) as [x Hx].
  exists m1, x. auto.
Qed.

(** C9, as the code has it.  Constructing a machine from a config whose
    handlers only observe dispatches [system.initialize] once and nothing
    else, whether or not [config.defer] is set; with [config.defer] set
    the state is still the empty string afterwards, and without it the
    state is the initial state. *)
Theorem initialize_dispatched_once tgt cfg m :
  observedConfig cfg ->
  StateMachine tgt cfg = Returned tt m ->
  emitted m = [("system.initialize", state m)]
  /\ (Config.defer cfg = true -> state m = Some "")
  /\ (Config.defer cfg = false -> state m = Config.initial (config m)).
Proof.
  intros Hcfg H.
  apply construction_observed in H as (m1 & x & Hi & _ & ->); [|exact Hcfg].
  apply initialize_frame in Hi as (sts & trs & acts & hs & i & ->).
  simpl. repeat split; intros ->; reflexivity.
Qed.

(** C6, as the code has it.  When every rule of the config is a structured
    record, the states list of the compiled machine has no duplicates and
    is in first-occurrence order over the [from] fields of all rules, in
    rule order, followed by the [to] fields of all rules, in rule order
    (a [to] that is a function names no state). *)
Theorem states_first_occurrence tgt cfg m :
  (forall r, r ∈ Config.events cfg ->
     exists name from to, r = Structured name from to) ->
  initialize cfg (blank tgt cfg) = Returned tt m ->
  NoDup (states m)
  /\ states m = firstOccurrences (stateNames (columns (Config.events cfg))).
Proof.
  intros _ H. apply initialize_states in H; [|reflexivity].
  rewrite H. split; [apply firstOccurrences_NoDup|reflexivity].
Qed.

(** *** Registering handlers *)

Lemma targetsOf_nonempty tg ts : targetsOf tg = Some ts -> ts <> [].
Proof.
  unfold targetsOf, RegExp.matchWords.
  destruct (truthy tg); [|intros; simplify_eq; discriminate].
  destruct (RegExp.runs _ _); intros; simplify_eq. discriminate.
Qed.

(** C8.  When the id resolves to an event and targets, registering a
    handler that is not a function raises an error at once, and the
    registry is as it was. *)
Theorem on_rejects_non_function id fn m event type tg ts :
  parseId id m = Some (event, type, tg) ->
  targetsOf tg = Some ts ->
  isFunction fn = false ->
  on id fn m
  = Thrown
      (Error_ ("Error assigning " ++ event ++ "." ++ type
               ++ " handler; callback is not a Function")) m.
Proof.
  intros Hid Hts Hfn. unfold on. rewrite Hid, Hts.
  pose proof (targetsOf_nonempty _ _ Hts) as Hne.
  destruct ts as [|t0 ts]; [congruence|].
  simpl. unfold bind, addHandler, throw.
  destruct fn; try reflexivity. discriminate.
Qed.

Lemma each_one {A} (f : A -> M unit) x m : each f [x] m = f x m.
Proof.
  simpl. unfold bind, ret. destruct (f x m) as [[] m'|]; reflexivity.
Qed.





(** *** do *)

Lemma create_pending m action rest t :
  Transition_create m action rest = inr t ->
  Transition.remaining t = Transition.schedule
  /\ Transition.paused t = false
  /\ Transition.from t = state m
  /\ Transition.action t = action.
Proof.
  unfold Transition_create. intros H.
  repeat case_match; simplify_eq; auto.
Qed.

(** A permitted action whose target resolves, on a machine whose handlers
    only observe: the transition is created, announced and driven to its
    end. *)
Lemma do_started m action rest t :
  observed m ->
  can action m = true ->
  Transition_create m action rest = inr t ->
  exists x,
    do action rest m =
      Returned true
        (with_target x
           (settled (Transition.to t)
              (("transition.start", state m)
                 :: driveEmits (config m) Transition.schedule t (state m))
              m)).
Proof.
  intros Hobs Hcan Hcreate. unfold do. rewrite Hcan, Hcreate.
  apply create_pending in Hcreate as (Hrem & Hp & _ & _).
  observe Hobs. simpl. unfold Transition_exec. simpl. rewrite Hrem.
  match goal with
  | |- context [drive _ ?m1] =>
      destruct (drive_observed Transition.schedule m1 t Hobs eq_refl Hp)
        as [y Hy]
  end.
  rewrite Hy. exists y. f_equal.
  destruct m; unfold settled, record; simpl.
  rewrite <- app_assoc. reflexivity.
Qed.

(** C4, as the code has it.  [do(action)] returns [false], leaving the
    machine as it was, when the action is not permitted from the current
    state; whenever it returns, it returns [can(action)].  A permitted
    action whose resolver does not return a known state makes [do] raise,
    leaving the machine as it was.  A permitted action whose target
    resolves, on a machine whose handlers only observe, makes [do] return
    [true] after [transition.start] was dispatched for the new
    transition. *)
Theorem do_permitted m action rest :
  (can action m = false -> do action rest m = Returned false m)
  /\ (forall b m', do action rest m = Returned b m' -> b = can action m)
  /\ (forall e,
        can action m = true ->
        Transition_create m action rest = inl e ->
        do action rest m = Thrown e m)
  /\ (forall t,
        can action m = true ->
        Transition_create m action rest = inr t ->
        observed m ->
        exists m' more,
          do action rest m = Returned true m'
          /\ emitted m' = emitted m ++ ("transition.start", state m) :: more).
Proof.
  repeat split.
  - intros H. unfold do. rewrite H. reflexivity.
  - unfold do. intros b m' H.
    destruct (can action m); [|simplify_eq; reflexivity].
    repeat case_match; simplify_eq; reflexivity.
  - intros e Hcan He. unfold do. rewrite Hcan, He. reflexivity.
  - intros t Hcan Ht Hobs.
    destruct (do_started m action rest t Hobs Hcan Ht) as [x Hx].
    eexists _, _. split; [exact Hx|]. destruct m; reflexivity.
Qed.

Lemma collated_tables cfg m :
  transitions (collated cfg m) = transitions m
  /\ actions (collated cfg m) = actions m.
Proof.
  destruct (collated_frame cfg m) as (sts & i & ->). auto.
Qed.

(** The tables [initialize] builds are those its rules add to the tables
    it started from. *)
Lemma initialize_tables cfg m0 m :
  initialize cfg m0 = Returned tt m ->
  exists m2,
    each addRule (Config.events cfg) (collated cfg m0) = Returned tt m2
    /\ transitions m = transitions m2
    /\ actions m = actions m2.
Proof.
  intros H. apply initialize_steps in H as (m2 & m3 & H2 & H3 & ->).
  exists m2. split; [exact H2|].
  apply handlers_handlers in H3. unfold sameButHandlers in H3.
  rewrite H3. unfold started. destruct (negb _); auto.
Qed.

(** C1.  A machine constructed from a config whose only rule is
    [{name: 'next', from: 'a', to: 'b'}] and whose handlers only observe,
    in state [a]: [do('next')] returns [true], leaves the machine in state
    [b] with no active transition, and dispatches, in this order,
    [transition.start], [state.a.leave], [state.*.leave],
    [action.next.start], [action.*.start] while the state is still [a],
    then [state.b.enter], [state.*.enter], [action.next.end],
    [action.*.end] and [system.change] with the state already [b], then
    [system.complete] exactly when [b] is [config.final]. *)
Theorem do_next_order tgt cfg m rest :
  Config.events cfg = [Structured "next" "a" (VString "b")] ->
  observedConfig cfg ->
  StateMachine tgt cfg = Returned tt m ->
  state m = Some "a" ->
  exists x,
    do "next" rest m =
      Returned true
        (with_target x
           (settled (Some "b")
              ([ ("transition.start", Some "a");
                 ("state.a.leave", Some "a");
                 ("state.*.leave", Some "a");
                 ("action.next.start", Some "a");
                 ("action.*.start", Some "a");
                 ("state.b.enter", Some "b");
                 ("state.*.enter", Some "b");
                 ("action.next.end", Some "b");
                 ("action.*.end", Some "b");
                 ("system.change", Some "b") ]
               ++ (if bool_decide (Some "b" = Config.final cfg)
                   then [("system.complete", Some "b")] else []))
              m)).
Proof.
  intros Hev Hcfg H Hst.
  apply construction_observed in H as (m1 & x0 & Hi & Hobs & ->);
    [|exact Hcfg].
  pose proof (initialize_tables _ _ _ Hi) as (m2 & H2 & Htr & Hac).
  rewrite Hev in H2. simpl in H2. unfold bind, modify, ret in H2.
  simplify_eq.
  destruct (collated_tables cfg (blank tgt cfg)) as [Ctr Cac].
  simpl in Htr, Hac. rewrite Ctr in Htr. rewrite Cac in Hac.
  apply initialize_frame in Hi as (sts & trs & acts & hs & i & ->).
  simpl in *. subst trs acts.
  match goal with
  | |- context [do "next" rest ?m0] =>
      destruct (do_started m0 "next" rest
                  (Transition.Build "next" (Some "a") (Some "b") rest
                     Transition.schedule false) Hobs) as [y Hy]
  end.
  - unfold can. simpl. rewrite Hst. reflexivity.
  - unfold Transition_create. simpl. rewrite Hst. reflexivity.
  - exists y. rewrite Hy. simpl. rewrite Hst. reflexivity.
Qed.

(** *** The shorthand pattern *)

Section Matching.
Import RegExp.
Context {R : Type}.
Implicit Types (p : ascii -> bool) (w s : chars) (caps : captures).

Lemma star_run p w s (k : chars -> option R) r :
  forallb p w = true -> stops p s -> k s = Some r ->
  star p (w ++ s) k = Some r.
Proof.
  intros Hw Hs Hk. induction w as [|c w IH]; simpl.
  - destruct s as [|c s]; simpl; [exact Hk|].
    simpl in Hs. rewrite Hs. exact Hk.
  - simpl in Hw. apply andb_true_iff in Hw as [Hc Hw].
    rewrite Hc, (IH Hw). reflexivity.
Qed.

Lemma consumed_app w s : consumed (w ++ s) s = string_of_list_ascii w.
Proof.
  unfold consumed. rewrite length_app.
  replace (length w + length s - length s) with (length w) by lia.
  rewrite take_app_length. reflexivity.
Qed.

Lemma run_cat_star p rest w s caps (k : chars -> captures -> option R) r :
  forallb p w = true -> stops p s ->
  run rest s caps k = Some r ->
  run (Cat (Star p) rest) (w ++ s) caps k = Some r.
Proof. intros Hw Hs Hk. simpl. apply star_run; assumption. Qed.

Lemma run_cat_chr p rest c s caps (k : chars -> captures -> option R) r :
  p c = true ->
  run rest s caps k = Some r ->
  run (Cat (Chr p) rest) (c :: s) caps k = Some r.
Proof. intros Hc Hk. simpl. rewrite Hc. exact Hk. Qed.

Lemma run_cat_group_chr i p rest c s caps
    (k : chars -> captures -> option R) r :
  p c = true ->
  run rest s (<[i := Some (String c "")]> caps) k = Some r ->
  run (Cat (Group i (Chr p)) rest) (c :: s) caps k = Some r.
Proof.
  intros Hc Hk. simpl. rewrite Hc.
  change (consumed (c :: s) s) with (consumed ([c] ++ s) s).
  rewrite consumed_app. exact Hk.
Qed.

Lemma run_cat_group_plus i p rest w s caps
    (k : chars -> captures -> option R) r :
  w <> [] -> forallb p w = true -> stops p s ->
  run rest s (<[i := Some (string_of_list_ascii w)]> caps) k = Some r ->
  run (Cat (Group i (Plus p)) rest) (w ++ s) caps k = Some r.
Proof.
  intros Hne Hw Hs Hk. destruct w as [|c w]; [congruence|].
  simpl in Hw. apply andb_true_iff in Hw as [Hc Hw].
  simpl. rewrite Hc. apply star_run; [exact Hw|exact Hs|].
  change (c :: w ++ s) with ((c :: w) ++ s).
  rewrite consumed_app. exact Hk.
Qed.

Lemma run_group_target i c w caps (k : chars -> captures -> option R) r :
  word c = true -> forallb dot w = true ->
  k [] (<[i := Some (string_of_list_ascii (c :: w))]> caps) = Some r ->
  run (Group i (Cat (Chr word) (Star dot))) (c :: w) caps k = Some r.
Proof.
  intros Hc Hw Hk. simpl. rewrite Hc.
  pose proof (consumed_app (c :: w) []) as E. rewrite app_nil_r in E.
  pose proof
    (star_run dot w []
       (fun s' => k s' (<[i := Some (consumed (c :: w) s')]> caps)) r Hw I)
    as H.
  rewrite app_nil_r in H. apply H. rewrite E. exact Hk.
Qed.
End Matching.

Lemma search_here n r s caps :
  RegExp.matchAt n r s = Some caps -> RegExp.search n r s = Some caps.
Proof. intros H. destruct s; simpl; rewrite H; reflexivity. Qed.

Lemma space_not_word c : RegExp.space c = true -> RegExp.word c = false.
Proof.
  destruct c as [[] [] [] [] [] [] [] []]; vm_compute; congruence.
Qed.

Lemma word_not_space c : RegExp.word c = true -> RegExp.space c = false.
Proof.
  destruct c as [[] [] [] [] [] [] [] []]; vm_compute; congruence.
Qed.

Lemma separator_plain c :
  RegExp.oneOf "|:=" c = true ->
  RegExp.word c = false /\ RegExp.space c = false.
Proof.
  destruct c as [[] [] [] [] [] [] [] []]; vm_compute; intros;
    (split; congruence).
Qed.

Lemma operator_plain c :
  RegExp.oneOf "<>-" c = true ->
  RegExp.word c = false /\ RegExp.space c = false.
Proof.
  destruct c as [[] [] [] [] [] [] [] []]; vm_compute; intros;
    (split; congruence).
Qed.

(** After a run of white space comes [c], which is not a word character:
    a word ends there. *)
Lemma stops_word_after_spaces w c s :
  forallb RegExp.space w = true -> RegExp.word c = false ->
  RegExp.stops RegExp.word (w ++ c :: s).
Proof.
  intros Hw Hc. destruct w as [|d w]; simpl; [exact Hc|].
  simpl in Hw. apply andb_true_iff in Hw as [Hd _].
  apply space_not_word. exact Hd.
Qed.

Lemma stops_space_before_word w s :
  w <> [] -> forallb RegExp.word w = true ->
  RegExp.stops RegExp.space (w ++ s).
Proof.
  intros Hne Hw. destruct w as [|d w]; [congruence|]. simpl.
  simpl in Hw. apply andb_true_iff in Hw as [Hd _].
  apply word_not_space. exact Hd.
Qed.

Lemma shorthand_chars n w1 sep w2 f w3 op w4 c r :
  n <> [] -> forallb RegExp.word n = true ->
  forallb RegExp.space w1 = true ->
  RegExp.oneOf "|:=" sep = true ->
  forallb RegExp.space w2 = true ->
  f <> [] -> forallb RegExp.word f = true ->
  forallb RegExp.space w3 = true ->
  RegExp.oneOf "<>-" op = true ->
  forallb RegExp.space w4 = true ->
  RegExp.word c = true -> forallb RegExp.dot r = true ->
  RegExp.search 4 RegExp.shorthand
    (n ++ w1 ++ sep :: w2 ++ f ++ w3 ++ op :: w4 ++ c :: r)
  = Some [ Some (string_of_list_ascii n); Some (string_of_list_ascii f);
           Some (String op ""); Some (string_of_list_ascii (c :: r)) ].
Proof.
  intros Hn0 Hn Hw1 Hsep Hw2 Hf0 Hf Hw3 Hop Hw4 Hc Hr.
  destruct (separator_plain _ Hsep) as [Hsw Hss].
  destruct (operator_plain _ Hop) as [How Hos].
  apply search_here. unfold RegExp.matchAt, RegExp.shorthand.
  cbn [RegExp.cat].
  apply run_cat_group_plus;
    [exact Hn0|exact Hn|apply stops_word_after_spaces; assumption|].
  apply run_cat_star; [exact Hw1|exact Hss|].
  apply run_cat_chr; [exact Hsep|].
  apply run_cat_star;
    [exact Hw2|apply stops_space_before_word; assumption|].
  apply run_cat_group_plus;
    [exact Hf0|exact Hf|apply stops_word_after_spaces; assumption|].
  apply run_cat_star; [exact Hw3|exact Hos|].
  apply run_cat_group_chr; [exact Hop|].
  apply run_cat_star;
    [exact Hw4|simpl; apply word_not_space; exact Hc|].
  apply run_group_target; [exact Hc|exact Hr|].
  reflexivity.
Qed.

Lemma chars_app (a b : string) :
  list_ascii_of_string (a ++ b)
  = list_ascii_of_string a ++ list_ascii_of_string b.
Proof. induction a as [|c a IH]; simpl; [reflexivity|]. rewrite IH. reflexivity. Qed.

(** A shorthand string [name sep from op rest], with optional white space
    around the separator and the operator, matches with these parts. *)
Lemma matchShorthand_parts name w1 sep w2 from w3 op w4 rest :
  RegExp.wordy name = true -> RegExp.spaces w1 = true ->
  RegExp.oneOf "|:=" sep = true -> RegExp.spaces w2 = true ->
  RegExp.wordy from = true -> RegExp.spaces w3 = true ->
  RegExp.oneOf "<>-" op = true -> RegExp.spaces w4 = true ->
  RegExp.targetText rest = true ->
  RegExp.matchShorthand
    (name ++ w1 ++ String sep w2 ++ from ++ w3 ++ String op w4 ++ rest)
  = Some [Some name; Some from; Some (String op ""); Some rest].
Proof.
  unfold RegExp.wordy, RegExp.spaces, RegExp.targetText,
    RegExp.matchShorthand.
  intros Hn Hw1 Hsep Hw2 Hf Hw3 Hop Hw4 Hr.
  repeat (rewrite chars_app; cbn [list_ascii_of_string String.append app]).
  destruct (list_ascii_of_string rest) as [|c r] eqn:Er; [discriminate|].
  apply andb_true_iff in Hr as [Hc Hr].
  rewrite <- (string_of_list_ascii_of_string name) at 2.
  rewrite <- (string_of_list_ascii_of_string from) at 2.
  rewrite <- (string_of_list_ascii_of_string rest), Er.
  apply shorthand_chars; try assumption.
  - intros E. rewrite E in Hn. discriminate.
  - destruct (list_ascii_of_string name); [discriminate|exact Hn].
  - intros E. rewrite E in Hf. discriminate.
  - destruct (list_ascii_of_string from); [discriminate|exact Hf].
Qed.

(** C5, as the code has it.  A shorthand string made of a name, a
    separator, a state name, the operator [>] and then any text that
    begins with a word character compiles to one rule: from the state
    named before the operator to all the text after it, taken as one
    target.  With [<] the rule goes the other way.  A chain is not taken
    apart. *)
Theorem shorthand_single_rule name w1 sep w2 from w3 w4 rest m :
  RegExp.wordy name = true -> RegExp.spaces w1 = true ->
  RegExp.oneOf "|:=" sep = true -> RegExp.spaces w2 = true ->
  RegExp.wordy from = true -> RegExp.spaces w3 = true ->
  RegExp.spaces w4 = true -> RegExp.targetText rest = true ->
  addRule
    (Shorthand (name ++ w1 ++ String sep w2 ++ from ++ w3
                ++ String ">" w4 ++ rest)) m
  = Returned tt (add name from (VString rest) m)
  /\ addRule
       (Shorthand (name ++ w1 ++ String sep w2 ++ from ++ w3
                   ++ String "<" w4 ++ rest)) m
     = Returned tt (add name rest (VString from) m).
Proof.
  intros Hn Hw1 Hsep Hw2 Hf Hw3 Hw4 Hr.
  split; unfold addRule;
    rewrite (matchShorthand_parts name w1 sep w2 from w3 _ w4 rest)
      by (assumption || reflexivity);
    reflexivity.
Qed.

(** ** Further properties *)

(** *** Adding rules *)

(** X1.  After [add(action, from, to)] the actions that [can] allows are
    those it allowed before and, when the current state is [from], the
    action added. *)
Theorem can_add a action from to m :
  can a (add action from to m)
  = can a m || (bool_decide (state m = Some from) && bool_decide (a = action)).
Proof.
  unfold can, add, ValueMap.add, ValueMap.hasValue. simpl.
  destruct (state m) as [s|]; [|reflexivity].
  destruct (decide (from = s)) as [->|Hne].
  - rewrite lookup_insert_eq, (bool_decide_eq_true_2 (Some s = Some s)) by reflexivity.
    simpl. apply eq_true_iff_eq.
    rewrite orb_true_iff, !bool_decide_eq_true, elem_of_app, list_elem_of_singleton.
    destruct (transitions m !! s); simpl;
      rewrite ?bool_decide_eq_true; [tauto|].
    split; [intros [H|H]; [inversion H|auto]|intros [H|H]; [discriminate|auto]].
  - rewrite lookup_insert_ne by exact Hne.
    rewrite (bool_decide_eq_false_2 (Some s = Some from)) by congruence.
    rewrite orb_false_r. reflexivity.
Qed.

Lemma inStep_add action from to m : inStep m -> inStep (add action from to m).
Proof.
  intros Hm s acts a Hs Ha. unfold add, ValueMap.add, ValueMap.set in *.
  simpl in *.
  destruct (decide (from = s)) as [->|Hne].
  - rewrite lookup_insert_eq in Hs. simplify_eq.
    apply elem_of_app in Ha as [Ha|Ha].
    + destruct (transitions m !! s) as [old|] eqn:Hold; simpl in Ha;
        [|inversion Ha].
      destruct (decide ((action ++ "." ++ s)%string = (a ++ "." ++ s)%string))
        as [->|Hk].
      * rewrite lookup_insert_eq. eauto.
      * rewrite lookup_insert_ne by exact Hk. exact (Hm s old a Hold Ha).
    + apply list_elem_of_singleton in Ha. subst a.
      rewrite lookup_insert_eq. eauto.
  - rewrite lookup_insert_ne in Hs by exact Hne.
    destruct (decide ((action ++ "." ++ from)%string = (a ++ "." ++ s)%string))
      as [->|Hk].
    + rewrite lookup_insert_eq. eauto.
    + rewrite lookup_insert_ne by exact Hk. exact (Hm s acts a Hs Ha).
Qed.

Lemma inStep_addRule r m m' :
  addRule r m = Returned tt m' -> inStep m -> inStep m'.
Proof.
  unfold addRule, modify, throw. intros H Hm.
  repeat case_match; simplify_eq; repeat apply inStep_add; exact Hm.
Qed.

Lemma inStep_rules rs m m' :
  each addRule rs m = Returned tt m' -> inStep m -> inStep m'.
Proof.
  apply (each_inv addRule (fun a b => inStep a -> inStep b)).
  - auto.
  - auto.
  - intros r _ a b. apply inStep_addRule.
Qed.

Lemma inStep_blank tgt cfg : inStep (blank tgt cfg).
Proof. intros s acts a H. simpl in H. rewrite lookup_empty in H. discriminate. Qed.

(** X2.  In every machine compiled from a config, whatever its rules, each
    action listed under a state has an entry in the actions table; so an
    action that [can] allows always has a target to look up. *)
Theorem compiled_in_step tgt cfg m :
  initialize cfg (blank tgt cfg) = Returned tt m ->
  inStep m
  /\ (forall a st,
        state m = Some st -> can a m = true ->
        is_Some (actions m !! (a ++ "." ++ st)%string)).
Proof.
  intros H.
  assert (inStep m) as Hm.
  { apply initialize_steps in H as (m2 & m3 & H2 & H3 & ->).
    apply inStep_rules in H2.
    - apply handlers_handlers in H3. unfold sameButHandlers in H3.
      intros s acts a. rewrite H3. unfold started.
      destruct (negb _); simpl; apply H2.
    - destruct (collated_frame cfg (blank tgt cfg)) as (sts & i & ->).
      apply inStep_blank. }
  split; [exact Hm|].
  intros a st Hst Hcan. unfold can, ValueMap.hasValue in Hcan.
  rewrite Hst in Hcan.
  destruct (transitions m !! st) as [acts|] eqn:Hacts; [|discriminate].
  apply bool_decide_eq_true in Hcan. exact (Hm st acts a Hacts Hcan).
Qed.

(** The machine after the structured rules among [rules] were added. *)
Lemma structured_rules rules :
  Forall structured rules ->
  forall m,
    each addRule rules m
    = Returned tt
        (fold_left
           (fun m r =>
              match r with
              | Structured name from to => add name from to m
              | Shorthand _ => m
              end) rules m).
Proof.
  induction 1 as [|r rules (name & from & to & ->) _ IH]; intros m;
    [reflexivity|].
  simpl. unfold bind, modify. apply IH.
Qed.

Lemma transitions_added rules :
  Forall structured rules ->
  forall m s,
    transitions
      (fold_left
         (fun m r =>
            match r with
            | Structured name from to => add name from to m
            | Shorthand _ => m
            end) rules m) !! s
    = match leaving s rules with
      | [] => transitions m !! s
      | l => Some (default [] (transitions m !! s) ++ l)
      end.
Proof.
  induction 1 as [|r rules (name & from & to & ->) _ IH]; intros m s;
    [reflexivity|].
  cbn [fold_left]. rewrite IH.
  assert (leaving s (Structured name from to :: rules)
          = if String.eqb from s then name :: leaving s rules
            else leaving s rules) as ->.
  { unfold leaving. simpl. destruct (String.eqb from s); reflexivity. }
  assert (transitions (add name from to m) !! s
          = if String.eqb from s
            then Some (default [] (transitions m !! s) ++ [name])
            else transitions m !! s) as ->.
  { unfold add, ValueMap.add. simpl.
    destruct (String.eqb_spec from s) as [->|Hne].
    - apply lookup_insert_eq.
    - apply lookup_insert_ne. exact Hne. }
  destruct (String.eqb from s); [|reflexivity].
  destruct (leaving s rules); [reflexivity|].
  simpl. rewrite <- app_assoc. reflexivity.
Qed.

Lemma actions_added rules :
  Forall structured rules ->
  forall m key,
    actions
      (fold_left
         (fun m r =>
            match r with
            | Structured name from to => add name from to m
            | Shorthand _ => m
            end) rules m) !! key
    = match last (storedAt key rules) with
      | Some to => Some to
      | None => actions m !! key
      end.
Proof.
  induction 1 as [|r rules (name & from & to & ->) _ IH]; intros m key;
    [reflexivity|].
  cbn [fold_left]. rewrite IH.
  assert (storedAt key (Structured name from to :: rules)
          = if String.eqb (name ++ "." ++ from) key
            then to :: storedAt key rules
            else storedAt key rules) as ->.
  { unfold storedAt. simpl.
    destruct (String.eqb (name ++ "." ++ from) key); reflexivity. }
  assert (actions (add name from to m) !! key
          = if String.eqb (name ++ "." ++ from) key then Some to
            else actions m !! key) as ->.
  { unfold add, ValueMap.set. simpl.
    destruct (String.eqb_spec (name ++ "." ++ from) key) as [->|Hne].
    - apply lookup_insert_eq.
    - apply lookup_insert_ne. exact Hne. }
  destruct (String.eqb (name ++ "." ++ from) key); [|reflexivity].
  rewrite last_cons. destruct (last (storedAt key rules)); reflexivity.
Qed.

Lemma compiled_structured tgt cfg m :
  Forall structured (Config.events cfg) ->
  initialize cfg (blank tgt cfg) = Returned tt m ->
  (forall s,
     transitions m !! s
     = match leaving s (Config.events cfg) with [] => None | l => Some l end)
  /\ (forall key, actions m !! key = last (storedAt key (Config.events cfg))).
Proof.
  intros Hs H. apply initialize_tables in H as (m2 & H2 & -> & ->).
  rewrite structured_rules in H2 by exact Hs. simplify_eq.
  destruct (collated_tables cfg (blank tgt cfg)) as [Ctr Cac].
  split.
  - intros s. rewrite transitions_added by exact Hs. rewrite Ctr. simpl.
    rewrite lookup_empty. reflexivity.
  - intros key. rewrite actions_added by exact Hs. rewrite Cac. simpl.
    rewrite lookup_empty. destruct (last _); reflexivity.
Qed.

(** X3.  In a machine compiled from structured rules, the transitions
    table lists under each state the names of the rules that leave it, in
    rule order and with repetitions; a state that no rule leaves has no
    list. *)
Theorem compiled_transitions tgt cfg m s :
  Forall structured (Config.events cfg) ->
  initialize cfg (blank tgt cfg) = Returned tt m ->
  transitions m !! s
  = match leaving s (Config.events cfg) with [] => None | l => Some l end.
Proof. intros Hs H. apply (compiled_structured tgt cfg m Hs H). Qed.

(** X4.  In a machine compiled from structured rules, the actions table
    holds under each path [name.from] the target of the last rule that
    builds this path; earlier rules with the same path are overwritten. *)
Theorem compiled_actions tgt cfg m key :
  Forall structured (Config.events cfg) ->
  initialize cfg (blank tgt cfg) = Returned tt m ->
  actions m !! key = last (storedAt key (Config.events cfg)).
Proof. intros Hs H. apply (compiled_structured tgt cfg m Hs H). Qed.

(** X5.  In a machine compiled from structured rules, [can(action)] holds
    exactly when some rule with that name leaves the current state. *)
Theorem can_compiled tgt cfg m st a :
  Forall structured (Config.events cfg) ->
  initialize cfg (blank tgt cfg) = Returned tt m ->
  state m = Some st ->
  can a m = true
  <-> exists to, Structured a st to ∈ Config.events cfg.
Proof.
  intros Hs H Hst. unfold can, ValueMap.hasValue. rewrite Hst.
  destruct (compiled_structured tgt cfg m Hs H) as [Htr _]. rewrite Htr.
  assert (a ∈ leaving st (Config.events cfg)
          <-> exists to, Structured a st to ∈ Config.events cfg) as Hl.
  { unfold leaving. rewrite list_elem_of_omap. split.
    - intros (r & Hr & Hn). destruct r as [|name from to]; [discriminate|].
      destruct (String.eqb_spec from st); simplify_eq. eauto.
    - intros (to & Hin). exists (Structured a st to). split; [exact Hin|].
      rewrite String.eqb_refl. reflexivity. }
  rewrite <- Hl.
  destruct (leaving st (Config.events cfg)) as [|x l].
  - split; [discriminate|]. intros Hin. inversion Hin.
  - apply bool_decide_eq_true.
Qed.

(** *** The initial state *)

Lemma collated_initial cfg m :
  states m = [] ->
  Config.initial (config (collated cfg m))
  = if truthy (Config.initial cfg) then Config.initial cfg
    else head (firstOccurrences (stateNames (columns (Config.events cfg)))).
Proof.
  intros Hnil. pose proof (collated_states cfg m Hnil) as Hs.
  unfold collated in *. cbv zeta in *. rewrite !addStates_states in *.
  simpl in *.
  destruct (truthy (Config.initial cfg)); simpl in *; [reflexivity|].
  rewrite Hs. symmetry. apply head_lookup.
Qed.

(** X6.  The state after compiling a config: the empty string when
    [config.defer] is set; else [config.initial] when it is given, whether
    or not it names a known state; else the first state collated, which is
    the [from] of the first rule when that rule is structured, and
    [undefined] when no state was collated. *)
Theorem initial_state tgt cfg m :
  initialize cfg (blank tgt cfg) = Returned tt m ->
  state m
  = (if Config.defer cfg then Some ""
     else if truthy (Config.initial cfg) then Config.initial cfg
     else head (firstOccurrences (stateNames (columns (Config.events cfg)))))
  /\ (forall name from to rest,
        Config.events cfg = Structured name from to :: rest ->
        Config.defer cfg = false ->
        truthy (Config.initial cfg) = false ->
        state m = Some from).
Proof.
  intros H.
  assert (state m
          = (if Config.defer cfg then Some ""
             else if truthy (Config.initial cfg) then Config.initial cfg
             else head (firstOccurrences
                          (stateNames (columns (Config.events cfg))))))
    as Hstate.
  { apply initialize_steps in H as (m2 & m3 & H2 & H3 & ->).
    apply rules_tables in H2. apply handlers_handlers in H3.
    unfold sameButTables in H2. unfold sameButHandlers in H3.
    pose proof (collated_initial cfg (blank tgt cfg) eq_refl) as Hi.
    destruct (collated_frame cfg (blank tgt cfg)) as (sts & i & Hc).
    rewrite Hc in Hi, H2. simpl in Hi. subst i.
    rewrite H3, H2. unfold started. simpl.
    destruct (Config.defer cfg); reflexivity. }
  split; [exact Hstate|].
  intros name from to rest Hev Hd Hi. rewrite Hstate, Hd, Hi, Hev.
  reflexivity.
Qed.

(** *** Shorthand strings that do not match *)

Section Accepting.
Import RegExp.
Context {R : Type}.

Lemma star_consumes p s (k : chars -> option R) x :
  star p s k = Some x ->
  exists w s', s = w ++ s' /\ forallb p w = true /\ k s' = Some x.
Proof.
  induction s as [|c s IH]; simpl; intros H.
  - exists [], []. auto.
  - destruct (p c) eqn:Hc; [|exists [], (c :: s); auto].
    destruct (star p s k) as [y|] eqn:Hs.
    + simplify_eq. destruct (IH eq_refl) as (w & s' & -> & Hw & Hk).
      exists (c :: w), s'. simpl. rewrite Hc, Hw. auto.
    + exists [], (c :: s). auto.
Qed.

(** A successful run has consumed a text that the expression accepts. *)
Lemma run_accepts r :
  forall s caps (k : chars -> captures -> option R) x,
    run r s caps k = Some x ->
    exists w s' caps', s = w ++ s' /\ accepts r w /\ k s' caps' = Some x.
Proof.
  induction r as [p|p|p|r1 IH1 r2 IH2|i r IH|r IH]; intros s caps k x H;
    simpl in H.
  - destruct s as [|c s]; [discriminate|].
    destruct (p c) eqn:Hc; [|discriminate].
    exists [c], s, caps. split; [reflexivity|]. split; [|exact H].
    constructor. exact Hc.
  - apply star_consumes in H as (w & s' & -> & Hw & Hk).
    exists w, s', caps. split; [reflexivity|]. split; [|exact Hk].
    constructor. exact Hw.
  - destruct s as [|c s]; [discriminate|].
    destruct (p c) eqn:Hc; [|discriminate].
    apply star_consumes in H as (w & s' & -> & Hw & Hk).
    exists (c :: w), s', caps. split; [reflexivity|]. split; [|exact Hk].
    constructor; assumption.
  - apply IH1 in H as (w1 & s1 & caps1 & -> & A1 & H).
    apply IH2 in H as (w2 & s2 & caps2 & -> & A2 & H).
    exists (w1 ++ w2), s2, caps2. rewrite <- app_assoc.
    split; [reflexivity|]. split; [|exact H]. constructor; assumption.
  - apply IH in H as (w & s' & caps' & -> & A & H).
    eexists w, s', _. split; [reflexivity|]. split; [|exact H].
    constructor. exact A.
  - destruct (run r s caps k) as [y|] eqn:Hr.
    + simplify_eq. apply IH in Hr as (w & s' & caps' & -> & A & H).
      exists w, s', caps'. split; [reflexivity|]. split; [|exact H].
      apply accepts_opt. exact A.
    + exists [], s, caps. split; [reflexivity|]. split; [|exact H].
      apply accepts_skip.
Qed.
End Accepting.

Lemma search_found n r s caps :
  RegExp.search n r s = Some caps ->
  exists s1 s2, s = s1 ++ s2 /\ RegExp.matchAt n r s2 = Some caps.
Proof.
  induction s as [|c s IH]; simpl; intros H.
  - destruct (RegExp.matchAt n r []) eqn:E; [|discriminate].
    exists [], []. simplify_eq. auto.
  - destruct (RegExp.matchAt n r (c :: s)) eqn:E.
    + exists [], (c :: s). simplify_eq. auto.
    + destruct (IH H) as (s1 & s2 & -> & Hm). exists (c :: s1), s2. auto.
Qed.

(** Every text the shorthand pattern accepts has an operator in it. *)
Lemma shorthand_has_operator w :
  accepts RegExp.shorthand w ->
  exists c, c ∈ w /\ RegExp.oneOf "<>-" c = true.
Proof.
  unfold RegExp.shorthand. cbn [RegExp.cat]. intros H.
  repeat match goal with
         | A : accepts (RegExp.Cat _ _) _ |- _ => inversion A; subst; clear A
         end.
  match goal with
  | A : accepts (RegExp.Group 2 _) _ |- _ => inversion A; subst; clear A
  end.
  match goal with
  | A : accepts (RegExp.Chr (RegExp.oneOf "<>-")) _ |- _ =>
      inversion A; subst; clear A
  end.
  eexists. split; [|eassumption].
  rewrite !elem_of_app, list_elem_of_singleton. tauto.
Qed.

Lemma operatorFree_no_match text :
  operatorFree text = true -> RegExp.matchShorthand text = None.
Proof.
  intros Hfree. unfold RegExp.matchShorthand.
  destruct (RegExp.search 4 RegExp.shorthand (list_ascii_of_string text))
    as [caps|] eqn:Hs; [|reflexivity].
  exfalso. apply search_found in Hs as (s1 & s2 & Htext & Hm).
  unfold RegExp.matchAt in Hm.
  apply run_accepts in Hm as (w & s' & caps' & -> & A & _).
  apply shorthand_has_operator in A as (c & Hc & Hop).
  unfold operatorFree in Hfree. rewrite Htext in Hfree.
  rewrite forallb_forall in Hfree.
  assert (In c (s1 ++ w ++ s')) as Hin.
  { apply list_elem_of_In. apply elem_of_app. right.
    apply elem_of_app. left. exact Hc. }
  specialize (Hfree c Hin). rewrite Hop in Hfree. discriminate.
Qed.

Lemma addRule_error r m e m' :
  addRule r m = Thrown e m' ->
  e = TypeError "matches is not iterable" /\ m' = m.
Proof.
  unfold addRule, modify, throw. intros H.
  repeat case_match; simplify_eq; auto.
Qed.

Lemma rules_error rs :
  forall m e m',
    each addRule rs m = Thrown e m' ->
    e = TypeError "matches is not iterable" /\ sameButTables m m'.
Proof.
  induction rs as [|r rs IH]; intros m e m' H; simpl in H; [discriminate|].
  unfold bind in H. destruct (addRule r m) as [[] m1|e1 m1] eqn:Hr.
  - apply addRule_tables in Hr. apply IH in H as [-> H].
    split; [reflexivity|]. eapply sameButTables_trans; eassumption.
  - simplify_eq. apply addRule_error in Hr as [-> ->].
    split; [reflexivity|]. apply sameButTables_refl.
Qed.

Lemma rules_malformed rs text :
  Shorthand text ∈ rs ->
  RegExp.matchShorthand text = None ->
  forall m, exists e m', each addRule rs m = Thrown e m'.
Proof.
  intros Hin Hno. induction rs as [|r rs IH]; intros m; [inversion Hin|].
  simpl. unfold bind.
  destruct (addRule r m) as [[] m1|e1 m1] eqn:Hr; [|eauto].
  apply elem_of_cons in Hin as [<-|Hin].
  - unfold addRule in Hr. rewrite Hno in Hr. discriminate.
  - apply IH. exact Hin.
Qed.

(** X7.  A config with a shorthand string in which none of [<], [>], [-]
    occurs cannot be compiled: the constructor raises a [TypeError], no
    handler was registered and nothing was dispatched. *)
Theorem malformed_shorthand tgt cfg text :
  Shorthand text ∈ Config.events cfg ->
  operatorFree text = true ->
  exists m',
    StateMachine tgt cfg = Thrown (TypeError "matches is not iterable") m'
    /\ handlers m' = ∅
    /\ emitted m' = [].
Proof.
  intros Hin Hfree. apply operatorFree_no_match in Hfree.
  destruct (rules_malformed _ _ Hin Hfree (collated cfg (blank tgt cfg)))
    as (e & m' & Hthrow).
  pose proof (rules_error _ _ _ _ Hthrow) as [-> Hsame].
  exists m'. unfold StateMachine, initialize, mbind, M_bind, bind, modify.
  change (each addRule (Config.events cfg) _)
    with (each addRule (Config.events cfg) (collated cfg (blank tgt cfg))).
  rewrite Hthrow. split; [reflexivity|].
  unfold sameButTables in Hsame. rewrite Hsame.
  destruct (collated_frame cfg (blank tgt cfg)) as (sts & i & ->).
  split; reflexivity.
Qed.

(** X8.  A shorthand string with the operator [-] compiles to two rules
    with the same action name, one each way between the state named before
    the operator and the text after it, the forward one first. *)
Theorem shorthand_both_ways name w1 sep w2 from w3 w4 rest m :
  RegExp.wordy name = true -> RegExp.spaces w1 = true ->
  RegExp.oneOf "|:=" sep = true -> RegExp.spaces w2 = true ->
  RegExp.wordy from = true -> RegExp.spaces w3 = true ->
  RegExp.spaces w4 = true -> RegExp.targetText rest = true ->
  addRule
    (Shorthand (name ++ w1 ++ String sep w2 ++ from ++ w3
                ++ String "-" w4 ++ rest)) m
  = Returned tt
      (add name rest (VString from) (add name from (VString rest) m)).
Proof.
  intros Hn Hw1 Hsep Hw2 Hf Hw3 Hw4 Hr. unfold addRule.
  rewrite (matchShorthand_parts name w1 sep w2 from w3 _ w4 rest)
    by (assumption || reflexivity).
  reflexivity.
Qed.

(** *** Handler ids *)

Section Failing.
Import RegExp.
Context {R : Type}.

(** Iteration fails when the continuation fails wherever it may stop. *)
Lemma star_none p s (k : chars -> option R) :
  (forall w s', s = w ++ s' -> forallb p w = true -> k s' = None) ->
  star p s k = None.
Proof.
  induction s as [|c s IH]; intros H; simpl.
  - apply (H [] []); reflexivity.
  - destruct (p c) eqn:Hc; [|apply (H [] (c :: s)); reflexivity].
    rewrite IH; [apply (H [] (c :: s)); reflexivity|].
    intros w s' -> Hw. apply (H (c :: w) s'); [reflexivity|].
    simpl. rewrite Hc. exact Hw.
Qed.
End Failing.

Lemma word_plain c :
  RegExp.word c = true ->
  RegExp.oneOf "." c = false /\ RegExp.oneOf ":" c = false.
Proof.
  destruct c as [[] [] [] [] [] [] [] []]; vm_compute; intros;
    (split; congruence).
Qed.

(** A bare word matches the id pattern as a type, with neither family nor
    target text. *)
Lemma id_word w :
  RegExp.wordy w = true ->
  RegExp.matchHandlerId w = Some [None; Some w; None].
Proof.
  unfold RegExp.wordy, RegExp.matchHandlerId, RegExp.matchAt,
    RegExp.handlerId.
  intros Hw. rewrite <- (string_of_list_ascii_of_string w) at 2.
  destruct (list_ascii_of_string w) as [|c cs]; [discriminate|].
  simpl in Hw. apply andb_true_iff in Hw as [Hc Hcs].
  cbn [RegExp.cat RegExp.run replicate]. rewrite Hc.
  rewrite star_none.
  - match goal with
    | |- RegExp.star ?p cs ?k = Some ?r =>
        pose proof (star_run p cs [] k r Hcs I) as H
    end.
    rewrite app_nil_r in H. apply H. simpl.
    pose proof (consumed_app (c :: cs) []) as E. rewrite app_nil_r in E.
    rewrite E. reflexivity.
  - intros u s' -> _. destruct s' as [|d s']; [reflexivity|].
    simpl in Hcs. rewrite forallb_app in Hcs.
    apply andb_true_iff in Hcs as [_ Hd]. simpl in Hd.
    apply andb_true_iff in Hd as [Hd _].
    destruct (word_plain d Hd) as [-> _]. reflexivity.
Qed.

Lemma runs_word cs :
  forall cur,
    forallb RegExp.word cs = true ->
    RegExp.runs cs cur
    = match cur ++ cs with
      | [] => []
      | l => [string_of_list_ascii l]
      end.
Proof.
  induction cs as [|c cs IH]; intros cur H; simpl.
  - rewrite app_nil_r. destruct cur; reflexivity.
  - simpl in H. apply andb_true_iff in H as [Hc Hcs]. rewrite Hc.
    rewrite (IH _ Hcs), <- app_assoc. reflexivity.
Qed.

Lemma targetsOf_word w :
  RegExp.wordy w = true -> targetsOf (Some w) = Some [w].
Proof.
  unfold RegExp.wordy, targetsOf, RegExp.matchWords. intros Hw. simpl.
  rewrite <- (string_of_list_ascii_of_string w) at 3.
  destruct w as [|c w]; [discriminate|]. cbn [list_ascii_of_string] in *.
  rewrite (runs_word _ [] Hw). reflexivity.
Qed.

(** X9.  An id that is empty or does not begin with a word character does
    not match the id pattern: [on] returns without registering anything
    and without looking at the handler. *)
Theorem on_unmatched_id id fn m :
  id = "" \/ (exists c rest, id = String c rest /\ RegExp.word c = false) ->
  on id fn m = Returned tt m.
Proof.
  intros [->|(c & rest & -> & Hc)]; [reflexivity|].
  unfold on, parseId, RegExp.matchHandlerId, RegExp.matchAt,
    RegExp.handlerId.
  cbn [RegExp.cat RegExp.run list_ascii_of_string]. rewrite Hc.
  reflexivity.
Qed.

Lemma on_word w fn m :
  RegExp.wordy w = true ->
  on w fn m
  = match eventLookup w with
    | Some e => addHandler e w "*" fn m
    | None =>
        if bool_decide (w ∈ states m)
        then addHandler "state" "leave" w fn m
        else if ValueMap.has w (actions m)
             then addHandler "action" "end" w fn m
             else Returned tt m
    end.
Proof.
  intros Hw. unfold on, parseId. rewrite (id_word w Hw).
  destruct (eventLookup w) as [e|].
  - change (targetsOf None) with (Some ["*"]).
    exact (each_one (fun tg => addHandler e w tg fn) "*" m).
  - destruct (bool_decide (w ∈ states m)).
    + rewrite (targetsOf_word w Hw).
      exact (each_one (fun tg => addHandler "state" "leave" tg fn) w m).
    + destruct (ValueMap.has w (actions m)); [|reflexivity].
      rewrite (targetsOf_word w Hw).
      exact (each_one (fun tg => addHandler "action" "end" tg fn) w m).
Qed.


Lemma registering event type f ts :
  forall m,
    each (fun target => addHandler event type target (VFunction f)) ts m
    = Returned tt (with_handlers (registered event type f ts (handlers m)) m).
Proof.
  induction ts as [|t ts IH]; intros m; simpl.
  - unfold ret. destruct m; reflexivity.
  - unfold bind, modify. rewrite IH. destruct m; reflexivity.
Qed.

Lemma registered_same event type f ts :
  String.eqb event "action" || String.eqb event "state" = false ->
  forall hs,
    registered event type f ts hs !! (event ++ "." ++ type)%string
    = match ts with
      | [] => hs !! (event ++ "." ++ type)%string
      | _ =>
          Some (default [] (hs !! (event ++ "." ++ type)%string)
                  ++ replicate (length ts) f)
      end.
Proof.
  intros He. unfold registered.
  induction ts as [|t ts IH]; intros hs; [reflexivity|].
  cbn [fold_left]. rewrite IH. unfold handlerPath. rewrite He.
  unfold ValueMap.insert. rewrite !lookup_insert_eq. simpl.
  destruct ts as [|t' ts]; [reflexivity|].
  simpl. rewrite <- app_assoc. reflexivity.
Qed.

(** X11.  Registering a function under an id that resolves to an event
    and targets appends it to the registry once for each target, in the
    order of the targets, and touches nothing else of the machine. *)
Theorem on_registers id f m event type tg ts :
  parseId id m = Some (event, type, tg) ->
  targetsOf tg = Some ts ->
  on id (VFunction f) m
  = Returned tt (with_handlers (registered event type f ts (handlers m)) m).
Proof.
  intros Hid Hts. unfold on. rewrite Hid, Hts. apply registering.
Qed.

(** X12.  For a family other than [action] and [state] the targets play no
    part in the registry path: an id that names [n] targets appends the
    same function [n] times at the one path of the family and the type. *)
Theorem on_repeats_handler id f m event type tg ts :
  parseId id m = Some (event, type, tg) ->
  targetsOf tg = Some ts ->
  event <> "action" -> event <> "state" ->
  exists m',
    on id (VFunction f) m = Returned tt m'
    /\ handlers m' !! (event ++ "." ++ type)%string
       = Some (default [] (handlers m !! (event ++ "." ++ type)%string)
                 ++ replicate (length ts) f).
Proof.
  intros Hid Hts Ha Hs. eexists. split.
  - unfold on. rewrite Hid, Hts. apply registering.
  - assert (String.eqb event "action" || String.eqb event "state" = false)
      as He.
    { apply orb_false_iff. split; apply String.eqb_neq; assumption. }
    destruct m; simpl. rewrite (registered_same _ _ _ _ He).
    pose proof (targetsOf_nonempty _ _ Hts).
    destruct ts; [congruence|reflexivity].
Qed.

(** *** Objects built from a list of keys *)

Lemma insertSorted_elem x y l :
  y ∈ Obj.insertSorted x l <-> y = x \/ y ∈ l.
Proof.
  induction l as [|z l IH]; simpl.
  - rewrite list_elem_of_singleton, elem_of_nil. tauto.
  - destruct (fst x <=? fst z)%N; rewrite !elem_of_cons; [tauto|].
    rewrite IH. tauto.
Qed.

Lemma sorted_elem (y : N * (string * Value)) l :
  y ∈ foldr Obj.insertSorted [] l <-> y ∈ l.
Proof.
  induction l as [|z l IH]; simpl; [reflexivity|].
  rewrite insertSorted_elem, IH, elem_of_cons. tauto.
Qed.

(** Enumeration visits the own properties, all of them and nothing else. *)
Lemma entries_elem e o : e ∈ Obj.entries o <-> e ∈ o.
Proof.
  unfold Obj.entries. rewrite elem_of_app, list_elem_of_fmap,
    list_elem_of_filter.
  split.
  - intros [(y & -> & Hy)|[_ H]]; [|exact H].
    apply (proj1 (sorted_elem _ _)) in Hy. unfold Obj.indexed in Hy.
    apply (proj1 (list_elem_of_omap _ _ _)) in Hy as (e' & He' & Hf).
    destruct (Obj.arrayIndex (fst e')); simpl in Hf; simplify_eq.
    exact He'.
  - intros H. destruct (Obj.arrayIndex (fst e)) as [n|] eqn:E.
    + left. exists (n, e). split; [reflexivity|]. apply sorted_elem.
      unfold Obj.indexed. apply list_elem_of_omap. exists e.
      rewrite E. auto.
    + right. auto.
Qed.


Lemma assign_keys (f : string -> Value) k keys :
  Obj.assign k (f k) ((fun a => (a, f a)) <$> keys)
  = (fun a => (a, f a)) <$> pushNew keys k.
Proof.
  unfold pushNew. induction keys as [|k0 keys IH]; [reflexivity|].
  cbn [fmap list_fmap Obj.assign]. destruct (String.eqb_spec k0 k) as [->|Hne].
  - rewrite bool_decide_eq_true_2 by left. reflexivity.
  - rewrite IH. destruct (decide (k ∈ keys)) as [Hin|Hout].
    + rewrite !bool_decide_eq_true_2; [reflexivity|right; exact Hin|exact Hin].
    + rewrite !bool_decide_eq_false_2; [reflexivity| |exact Hout].
      intros Hin. apply elem_of_cons in Hin as [->|Hin]; tauto.
Qed.

Lemma built_keys (f : string -> Value) acts :
  forall keys,
    fold_left (fun o a => Obj.set a (f a) o) acts
      ((fun a => (a, f a)) <$> keys)
    = (fun a => (a, f a))
        <$> fold_left pushNew (filter (fun a => a ≠ "__proto__") acts) keys.
Proof.
  induction acts as [|a acts IH]; intros keys; [reflexivity|].
  cbn [fold_left]. rewrite filter_cons. unfold Obj.set at 2.
  destruct (String.eqb_spec a "__proto__") as [->|Hne].
  - destruct (decide _) as [Hn|_]; [contradiction|]. apply IH.
  - destruct (decide _) as [_|Hn]; [|contradiction].
    rewrite assign_keys, IH. reflexivity.
Qed.

Lemma built_object (f : string -> Value) acts :
  fold_left (fun o a => Obj.set a (f a) o) acts []
  = (fun a => (a, f a)) <$> ownKeys acts.
Proof.
  pose proof (built_keys f acts []) as H. cbn [fmap list_fmap] in H.
  rewrite H, pushNew_firstOccurrences, filter_nothing_known. reflexivity.
Qed.

Lemma firstOccurrences_all x l : x ∈ l -> x ∈ firstOccurrences l.
Proof.
  induction l as [|y l IH]; intros H; [inversion H|]. simpl.
  destruct (decide (x = y)) as [->|Hne]; [left|].
  right. apply list_elem_of_filter. split; [exact Hne|].
  apply IH. apply elem_of_cons in H as [|]; [contradiction|assumption].
Qed.

Lemma ownKeys_elem a acts :
  a ∈ ownKeys acts <-> a ∈ acts /\ a ≠ "__proto__".
Proof.
  unfold ownKeys. split.
  - intros H. apply firstOccurrences_elem, list_elem_of_filter in H. tauto.
  - intros [H Hne]. apply firstOccurrences_all, list_elem_of_filter. tauto.
Qed.

Lemma getActionsForMap_built st m s acts :
  stateOr st m = Some s ->
  transitions m !! s = Some acts ->
  getActionsForMap st m
  = inr ((fun a => (a, targetAt s m a)) <$> ownKeys acts).
Proof.
  intros Hs Hacts. unfold getActionsForMap, getActionsFor, ValueMap.get.
  rewrite Hs, Hacts. simpl.
  rewrite <- (built_object (targetAt s m) acts). reflexivity.
Qed.

Lemma getActionsForMap_cases st m :
  (exists s acts, stateOr st m = Some s /\ transitions m !! s = Some acts)
  \/ getActionsForMap st m
     = inl (TypeError "Cannot read property 'map' of undefined").
Proof.
  unfold getActionsForMap, getActionsFor, ValueMap.get.
  destruct (stateOr st m) as [s|]; [|right; reflexivity].
  destruct (transitions m !! s) as [acts|] eqn:E; [left; eauto|].
  right. reflexivity.
Qed.

Lemma targetAt_string s m a st :
  targetAt s m a = VString st
  <-> actions m !! (a ++ "." ++ s)%string = Some (VString st).
Proof.
  unfold targetAt, ValueMap.get.
  destruct (actions m !! (a ++ "." ++ s)%string) as [v|]; simpl; split;
    intros H; simplify_eq; reflexivity.
Qed.

(** *** getStatesFor, getActionForState, go *)


Lemma found_action st m s acts a v :
  find (fun e => bool_decide (snd e = VString st))
    (Obj.entries ((fun a => (a, targetAt s m a)) <$> ownKeys acts))
  = Some (a, v) ->
  a ∈ acts /\ a ≠ "__proto__"
  /\ actions m !! (a ++ "." ++ s)%string = Some (VString st).
Proof.
  intros H. apply find_some in H as [Hin Hv].
  apply list_elem_of_In, entries_elem, list_elem_of_fmap in Hin
    as (a' & E & Ha).
  simplify_eq. apply ownKeys_elem in Ha as [Ha Hne].
  apply bool_decide_eq_true in Hv. simpl in Hv.
  apply targetAt_string in Hv. auto.
Qed.

Lemma do_refused action rest m m' :
  do action rest m = Returned false m' -> m' = m.
Proof.
  unfold do. intros H. repeat case_match; simplify_eq; reflexivity.
Qed.




(** X14.  When [go(state)] returns [true], the state is a known one and
    the machine has run [do] for an action with a non-empty name that is
    permitted from the current state and whose stored target is that very
    state; a rule whose target is computed by a function is never chosen.
    When [go] returns [false], the machine is as it was. *)
Theorem go_sound st m b m' :
  go st m = Returned b m' ->
  (b = false -> m' = m)
  /\ (b = true ->
      exists a s,
        state m = Some s /\ st ∈ states m /\ a <> ""
        /\ can a m = true
        /\ actions m !! (a ++ "." ++ s)%string = Some (VString st)
        /\ do a [] m = Returned true m').
Proof.
  unfold go, getActionForState, has. intros H.
  destruct (bool_decide (st ∈ states m)) eqn:Hhas;
    [|simplify_eq; split; [reflexivity|discriminate]].
  apply bool_decide_eq_true in Hhas.
  destruct (getActionsForMap_cases None m) as [(s & acts & Hs & Hacts)|E];
    [|rewrite E in H; discriminate].
  rewrite (getActionsForMap_built None m s acts Hs Hacts) in H.
  change (stateOr None m) with (state m) in Hs.
  destruct (find _ _) as [[a v]|] eqn:Hfind; simpl in H;
    [|simplify_eq; split; [reflexivity|discriminate]].
  apply found_action in Hfind as (Ha & _ & Htarget).
  destruct (String.eqb_spec a "") as [->|Hne]; simpl in H;
    [simplify_eq; split; [reflexivity|discriminate]|].
  split.
  - intros ->. eapply do_refused. exact H.
  - intros ->. exists a, s. repeat split; try assumption.
    unfold can, ValueMap.hasValue. rewrite Hs, Hacts.
    apply bool_decide_eq_true. exact Ha.
Qed.


(** X16.  In a machine compiled from structured rules and standing in a
    state that no rule leaves, nothing is permitted, [getActionsFor]
    returns [undefined], [getStatesFor] raises a [TypeError], and [go] to
    any known state raises the same error instead of returning [false]. *)
Theorem terminal_state_queries tgt cfg m s :
  Forall structured (Config.events cfg) ->
  initialize cfg (blank tgt cfg) = Returned tt m ->
  state m = Some s ->
  leaving s (Config.events cfg) = [] ->
  (forall a, can a m = false)
  /\ getActionsFor None m = None
  /\ getStatesFor None m
     = inl (TypeError "Cannot read property 'map' of undefined")
  /\ (forall st,
        st ∈ states m ->
        go st m
        = Thrown (TypeError "Cannot read property 'map' of undefined") m).
Proof.
  intros Hrules H Hs Hnone.
  destruct (compiled_structured tgt cfg m Hrules H) as [Htr _].
  specialize (Htr s). rewrite Hnone in Htr.
  assert (getActionsFor None m = None) as Hacts.
  { unfold getActionsFor, ValueMap.get.
    change (stateOr None m) with (state m). rewrite Hs. exact Htr. }
  assert (getActionsForMap None m
          = inl (TypeError "Cannot read property 'map' of undefined"))
    as Hmap.
  { unfold getActionsForMap. rewrite Hacts. reflexivity. }
  repeat split.
  - intros a. unfold can, ValueMap.hasValue. rewrite Hs, Htr. reflexivity.
  - exact Hacts.
  - unfold getStatesFor. rewrite Hmap. reflexivity.
  - intros st Hst. unfold go, getActionForState, has.
    rewrite bool_decide_eq_true_2 by exact Hst. rewrite Hmap. reflexivity.
Qed.

(** X17.  A rule added with [add] is permitted from its [from] state at
    once, but [add] records no state: when the target is not a known
    state already, [go] to it returns [false] and does nothing, although
    [do] of the action is permitted. *)
Theorem add_then_go action from st m :
  state m = Some from ->
  st ∉ states m ->
  let m' := add action from (VString st) m in
  can action m' = true
  /\ has st m' = false
  /\ go st m' = Returned false m'.
Proof.
  intros Hs Hst. cbv zeta.
  assert (has st (add action from (VString st) m) = false) as Hhas.
  { unfold has. apply bool_decide_eq_false_2. exact Hst. }
  repeat split.
  - unfold can, add, ValueMap.hasValue, ValueMap.add. simpl. rewrite Hs.
    rewrite lookup_insert_eq. apply bool_decide_eq_true.
    apply elem_of_app. right. left.
  - exact Hhas.
  - unfold go. rewrite Hhas. reflexivity.
Qed.

(** *** reset, pause, do over a transition in flight *)

(** X18.  On a machine whose [system.reset] handlers only observe,
    [reset(initial)] sets the state to [initial] or, when that is falsy,
    to [config.initial], without checking that it is a known state;
    discards any transition in flight without running its remaining
    steps; and dispatches [system.reset] and nothing else.  Nothing of
    the discarded transition can fire afterwards. *)
Theorem reset_discards initial m :
  observedAt "system.reset" m ->
  exists x,
    let st := if truthy initial then initial else Config.initial (config m) in
    let m' := with_target x (settled st [("system.reset", st)] m) in
    reset initial m = m'
    /\ (forall ps, drive ps m' = m')
    /\ (forall cs, each command cs m' = Returned tt m').
Proof.
  intros Hobs. unfold reset.
  match goal with
  | |- context [update ?n ?ty ?m0] =>
      destruct (update_observedAt n ty m0) as [x E]
  end.
  { intros fns f Hf. apply Hobs. revert Hf.
    destruct m as [? ? ? ? ? ? [t|] ? ?]; simpl; auto. }
  rewrite E. exists x. cbv zeta.
  split; [destruct m as [? ? ? ? ? ? [t|] ? ?]; reflexivity|].
  split; [intros ps; apply drive_idle; reflexivity|].
  intros cs. apply commands_idle. reflexivity.
Qed.

(** X19.  On a machine with a transition in flight, whose
    [transition.pause] handlers only observe, [pause()] marks the
    transition paused and dispatches [transition.pause], whether or not
    the transition was paused already; the state is not touched. *)
Theorem pause_marks m t :
  transition m = Some t ->
  observedAt "transition.pause" m ->
  exists x,
    pause m
    = with_target x
        (record "transition.pause"
           (with_transition (Some (Transition.pause t)) m))
    /\ isPaused (pause m) = true
    /\ state (pause m) = state m.
Proof.
  intros Ht Hobs. unfold pause. rewrite Ht.
  match goal with
  | |- context [update ?n ?ty ?m0] =>
      destruct (update_observedAt n ty m0) as [x E]
  end.
  { intros fns f Hf. apply Hobs. exact Hf. }
  rewrite E. exists x. unfold onTransition. rewrite Ht.
  repeat split; destruct m; reflexivity.
Qed.

(** X20.  [do] does not look at the transition in flight: a permitted
    action whose target is not computed by a function starts as it would
    on a machine with no transition, and the transition found there is
    overwritten without [transition.cancel] or [transition.end] being
    dispatched for it. *)
Theorem do_overwrites action rest tr m :
  can action m = true ->
  (forall f,
     actions m !! (action ++ "." ++ toString (state m))%string
     <> Some (VFunction f)) ->
  do action rest (with_transition tr m) = do action rest m.
Proof.
  intros Hcan Hfixed. unfold do.
  change (can action (with_transition tr m)) with (can action m).
  rewrite Hcan. unfold Transition_create, ValueMap.get.
  destruct m as [tg st sts trs acts hs t0 cfg em]. simpl in *.
  destruct (acts !! (action ++ "." ++ toString st)%string) as [[| |f]|];
    try reflexivity.
  exfalso. exact (Hfixed f eq_refl).
Qed.

(** *** The registry only grows *)

Lemma grown_refl hs : grown hs hs.
Proof. intros path fns H. exists []. rewrite app_nil_r. exact H. Qed.

Lemma grown_trans a b c : grown a b -> grown b c -> grown a c.
Proof.
  intros Hab Hbc path fns H.
  destruct (Hab path fns H) as [more1 H1].
  destruct (Hbc path _ H1) as [more2 H2].
  exists (more1 ++ more2). rewrite app_assoc. exact H2.
Qed.

Lemma grown_insert path f hs : grown hs (ValueMap.insert path f hs).
Proof.
  intros path' fns H. unfold ValueMap.insert.
  destruct (decide (path = path')) as [->|Hne].
  - rewrite lookup_insert_eq, H. exists [f]. reflexivity.
  - rewrite lookup_insert_ne by exact Hne. exists []. rewrite app_nil_r.
    exact H.
Qed.

Lemma on_grown id fn m m' :
  on id fn m = Returned tt m' -> grown (handlers m) (handlers m').
Proof.
  unfold on. intros H.
  destruct (parseId id m) as [[[event type] tg]|];
    [|simplify_eq; apply grown_refl].
  destruct (targetsOf tg) as [ts|]; [|discriminate].
  revert H.
  apply (each_inv _ (fun a b => grown (handlers a) (handlers b))).
  - intros a. apply grown_refl.
  - intros a b c. apply grown_trans.
  - intros x _ a b Hadd. unfold addHandler, modify, throw in Hadd.
    destruct fn as [| |f]; simplify_eq. simpl. apply grown_insert.
Qed.

Lemma handlers_grown (hs : list (string * Value)) m m' :
  each (fun h => on (fst h) (snd h)) hs m = Returned tt m' ->
  grown (handlers m) (handlers m').
Proof.
  apply (each_inv _ (fun a b => grown (handlers a) (handlers b))).
  - intros a. apply grown_refl.
  - intros a b c. apply grown_trans.
  - intros x _ a b. apply on_grown.
Qed.

(** X21.  [on] never drops, replaces or reorders what the registry holds:
    when it returns, every list of the registry is the list it was with,
    at most, functions appended, and nothing else of the machine has
    changed; when it raises, the machine is as it was. *)
Theorem on_appends id fn m :
  (forall m',
     on id fn m = Returned tt m' ->
     grown (handlers m) (handlers m')
     /\ m' = with_handlers (handlers m') m)
  /\ (forall e m', on id fn m = Thrown e m' -> m' = m).
Proof.
  split.
  - intros m' H. split; [apply (on_grown id fn), H|].
    apply (on_handlers id fn), H.
  - unfold on. intros e m' H.
    destruct (parseId id m) as [[[event type] tg]|]; [|discriminate].
    destruct (targetsOf tg) as [ts|]; [|simplify_eq; reflexivity].
    destruct fn as [|s|f].
    + destruct ts as [|t ts]; [discriminate|].
      simpl in H. unfold bind, throw in H. simplify_eq. reflexivity.
    + destruct ts as [|t ts]; [discriminate|].
      simpl in H. unfold bind, throw in H. simplify_eq. reflexivity.
    + rewrite registering in H. discriminate.
Qed.

Lemma handlers_member (hs : list (string * Value)) w f :
  RegExp.wordy w = true ->
  eventLookup w = None ->
  (w, VFunction f) ∈ hs ->
  forall m m',
    each (fun h => on (fst h) (snd h)) hs m = Returned tt m' ->
    (w ∈ states m ->
       exists fns,
         handlers m' !! ("state." ++ w ++ ".leave")%string = Some fns
         /\ f ∈ fns)
    /\ (w ∉ states m -> ValueMap.has w (actions m) = true ->
          exists fns,
            handlers m' !! ("action." ++ w ++ ".end")%string = Some fns
            /\ f ∈ fns).
Proof.
  intros Hw Hlook. induction hs as [|h hs IH]; intros Hin m m' H;
    [inversion Hin|].
  simpl in H. unfold bind in H.
  destruct (on (fst h) (snd h) m) as [[] m1|e m1] eqn:Hon; [|discriminate].
  pose proof (on_handlers _ _ _ _ Hon) as Hframe.
  unfold sameButHandlers in Hframe.
  assert (states m1 = states m) as Hsts by (rewrite Hframe; reflexivity).
  assert (actions m1 = actions m) as Hacts by (rewrite Hframe; reflexivity).
  apply elem_of_cons in Hin as [<-|Hin].
  - simpl in Hon. rewrite (on_word w _ m Hw), Hlook in Hon.
    pose proof (handlers_grown _ _ _ H) as Hgrown.
    split.
    + intros Hs. rewrite bool_decide_eq_true_2 in Hon by exact Hs.
      unfold addHandler, modify in Hon. simplify_eq.
      destruct (Hgrown ("state." ++ w ++ ".leave")%string
                  (default [] (handlers m !! ("state." ++ w ++ ".leave")%string)
                     ++ [f])) as [more Hmore].
      { simpl. unfold ValueMap.insert. apply lookup_insert_eq. }
      eexists. split; [exact Hmore|].
      rewrite !elem_of_app, list_elem_of_singleton. auto.
    + intros Hs Ha. rewrite bool_decide_eq_false_2, Ha in Hon by exact Hs.
      unfold addHandler, modify in Hon. simplify_eq.
      destruct (Hgrown ("action." ++ w ++ ".end")%string
                  (default [] (handlers m !! ("action." ++ w ++ ".end")%string)
                     ++ [f])) as [more Hmore].
      { simpl. unfold ValueMap.insert. apply lookup_insert_eq. }
      eexists. split; [exact Hmore|].
      rewrite !elem_of_app, list_elem_of_singleton. auto.
  - rewrite <- Hsts, <- Hacts. apply IH; assumption.
Qed.

(** X22.  The states list and the actions table are complete before any
    handler of [config.handlers] is registered: a function given there
    under the bare name of a state of the machine is among the handlers of
    that state's [leave] event and, under the bare name of an action that
    is not also a state, among the handlers of that action's [end] event,
    provided the name is not an event type. *)
Theorem config_handler_names tgt cfg m w f :
  initialize cfg (blank tgt cfg) = Returned tt m ->
  (w, VFunction f) ∈ Config.handlers cfg ->
  RegExp.wordy w = true ->
  eventLookup w = None ->
  (w ∈ states m ->
     exists fns,
       handlers m !! ("state." ++ w ++ ".leave")%string = Some fns
       /\ f ∈ fns)
  /\ (w ∉ states m -> ValueMap.has w (actions m) = true ->
        exists fns,
          handlers m !! ("action." ++ w ++ ".end")%string = Some fns
          /\ f ∈ fns).
Proof.
  intros H Hin Hw Hlook.
  apply initialize_steps in H as (m2 & m3 & H2 & H3 & ->).
  pose proof (handlers_handlers _ _ _ H3) as Hframe.
  unfold sameButHandlers in Hframe.
  assert (handlers (started m3) = handlers m3) as ->
    by (unfold started; destruct (negb _); reflexivity).
  assert (states (started m3) = states m2) as ->
    by (unfold started; destruct (negb _); rewrite Hframe; reflexivity).
  assert (actions (started m3) = actions m2) as ->
    by (unfold started; destruct (negb _); rewrite Hframe; reflexivity).
  exact (handlers_member _ w f Hw Hlook Hin m2 m3 H3).
Qed.

End Machine.


Arguments Machine Target : clear implicits.
Arguments Outcome Target A : clear implicits.
Arguments Returned {Target A} a m.
Arguments Thrown {Target A} e m.

(** ** The properties on sample machines *)

Lemma silent_observer {Target} (f : Fn) : observer (Target := Target) silent f.
Proof. intros ev m. unfold silent. destruct m; reflexivity. Qed.

Lemma silent_observed {Target} (m : Machine Target) : observed silent m.
Proof. intros path fns f _ _. apply silent_observer. Qed.

Lemma silent_observedAt {Target} path (m : Machine Target) :
  observedAt silent path m.
Proof. intros fns f _ _. apply silent_observer. Qed.

Lemma silent_config {Target} cfg : observedConfig (Target := Target) silent cfg.
Proof. intros id f _. apply silent_observer. Qed.

(** C10 on a machine that was just constructed. *)
Lemma commands_without_transition_witness :
  let m := blank tt Sample.next in
  pause silent m = m /\ resume silent m = Returned tt m
  /\ cancel silent m = m /\ end_ silent m = m.
Proof.
  apply (commands_without_transition silent (blank tt Sample.next)).
  reflexivity.
Defined.

(** A handler that calls [pause()]: function 1 does to the machine what
    [pause()] itself does, handlers included, as long as nothing is
    registered for [transition.pause]. *)
Lemma pausing_calls_pause {Target} f ev (m : Machine Target) :
  handlers m !! "transition.pause" = None ->
  pausing f ev m = if Nat.eqb f 1 then pause pausing m else m.
Proof.
  intros H. unfold pausing, pause, update, dispatch, ValueMap.get.
  destruct (Nat.eqb f 1); [|reflexivity].
  destruct (transition m); [|reflexivity].
  simpl. change ("transition" +:+ "." +:+ "pause") with "transition.pause".
  rewrite H. reflexivity.
Qed.

(** The machine of [Sample.guarded] once [do('next')] was paused by the
    handler on the start of the action: [do] has returned [true], the state
    is still [a], and the steps from the wildcard start path on are left. *)
Lemma paused_by_handler :
  exists m p,
    StateMachine pausing tt Sample.guarded = Returned tt m
    /\ do pausing astray "next" [] m = Returned true p
    /\ state p = Some "a"
    /\ transition p
       = Some (Transition.Build "next" (Some "a") (Some "b") []
                 [ Transition.ActionStart true; Transition.ApplyingState;
                   Transition.Enter false; Transition.Enter true;
                   Transition.ActionEnd false; Transition.ActionEnd true ]
                 true)
    /\ emitted p
       = [ ("system.initialize", Some "a"); ("transition.start", Some "a");
           ("state.a.leave", Some "a"); ("state.*.leave", Some "a");
           ("action.next.start", Some "a"); ("transition.pause", Some "a") ]
    /\ handlers p = ValueMap.insert "action.next.start" 1 ∅.
Proof.
  eexists. eexists.
  split; [vm_compute; reflexivity|].
  repeat split; vm_compute; reflexivity.
Qed.

(** Resuming it runs the steps that were left, in order, and completes the
    transition. *)
Lemma resumed_after_pause :
  exists m p r,
    StateMachine pausing tt Sample.guarded = Returned tt m
    /\ do pausing astray "next" [] m = Returned true p
    /\ resume pausing p = Returned tt r
    /\ state r = Some "b"
    /\ transition r = None
    /\ emitted r
       = emitted p
         ++ [ ("transition.resume", Some "a"); ("action.*.start", Some "a");
              ("state.b.enter", Some "b"); ("state.*.enter", Some "b");
              ("action.next.end", Some "b"); ("action.*.end", Some "b");
              ("system.change", Some "b"); ("system.complete", Some "b") ].
Proof.
  eexists. eexists. eexists.
  split; [vm_compute; reflexivity|].
  split; [vm_compute; reflexivity|].
  repeat split; vm_compute; reflexivity.
Qed.

(** A handler that calls [cancel()]: function 1 does to the machine what
    [cancel()] itself does, handlers included, as long as nothing is
    registered for [transition.cancel]. *)
Lemma cancelling_calls_cancel {Target} f ev (m : Machine Target) :
  handlers m !! "transition.cancel" = None ->
  cancelling f ev m = if Nat.eqb f 1 then cancel cancelling m else m.
Proof.
  intros H. unfold cancelling, cancel, update, dispatch, ValueMap.get.
  destruct (Nat.eqb f 1); [|reflexivity].
  destruct (transition m); [|reflexivity].
  simpl. change ("transition" +:+ "." +:+ "cancel") with "transition.cancel".
  rewrite H. reflexivity.
Qed.

(** When the handler on the start of the action cancels, [do('next')] still
    returns [true], the state is [a] again, the transition is gone, and
    nothing is dispatched after [transition.cancel]. *)
Lemma cancelled_by_handler :
  exists m c,
    StateMachine cancelling tt Sample.guarded = Returned tt m
    /\ do cancelling astray "next" [] m = Returned true c
    /\ state c = Some "a"
    /\ transition c = None
    /\ emitted c
       = [ ("system.initialize", Some "a"); ("transition.start", Some "a");
           ("state.a.leave", Some "a"); ("state.*.leave", Some "a");
           ("action.next.start", Some "a"); ("transition.cancel", Some "a") ].
Proof.
  eexists. eexists.
  split; [vm_compute; reflexivity|].
  repeat split; vm_compute; reflexivity.
Qed.


(** C3 on the same machine: [b] is final. *)
Lemma end_commits_witness :
  exists m p x,
    StateMachine pausing tt Sample.guarded = Returned tt m
    /\ do pausing astray "next" [] m = Returned true p
    /\ end_ pausing p =
         with_target x
           (settled (Some "b")
              [("transition.end", Some "b"); ("system.change", Some "b");
               ("system.complete", Some "b")]
              p).
Proof.
  destruct paused_by_handler as (m & p & Hm & Hp & _ & Ht & _ & Hh).
  assert (forall path, path <> "action.next.start" ->
                       observedAt pausing path p) as Hobs.
  { intros path Hne fns f H. rewrite Hh in H. unfold ValueMap.insert in H.
    rewrite lookup_insert_ne in H by congruence.
    rewrite lookup_empty in H. discriminate. }
  destruct (end_commits pausing p _ Ht) as [x Hx]; try (apply Hobs; discriminate).
  exists m, p, x. split; [exact Hm|]. split; [exact Hp|].
  rewrite Hx. unfold completionEmits.
  assert (config p = Config.with_initial (Some "a") Sample.guarded) as ->.
  { pose proof Hp as Hp'. revert Hp'. pose proof Hm as Hm'.
    vm_compute in Hm'. injection Hm' as <-. vm_compute.
    intros E. injection E as <-. reflexivity. }
  reflexivity.
Defined.

(** C8: a string given as the handler of the known state [a]. *)
Lemma on_rejects_non_function_witness :
  on "a" (VString "not a function") (midway tt)
  = Thrown
      (Error_ "Error assigning state.leave handler; callback is not a Function")
      (midway tt).
Proof.
  apply (on_rejects_non_function "a" (VString "not a function") (midway tt)
           "state" "leave" (Some "a") ["a"]); reflexivity.
Defined.

(** C1 on the machine constructed from the sample config. *)
Lemma do_next_order_witness :
  exists m x,
    StateMachine silent tt Sample.next = Returned tt m
    /\ do silent astray "next" [] m =
         Returned true
           (with_target x
              (settled (Some "b")
                 [ ("transition.start", Some "a");
                   ("state.a.leave", Some "a");
                   ("state.*.leave", Some "a");
                   ("action.next.start", Some "a");
                   ("action.*.start", Some "a");
                   ("state.b.enter", Some "b");
                   ("state.*.enter", Some "b");
                   ("action.next.end", Some "b");
                   ("action.*.end", Some "b");
                   ("system.change", Some "b");
                   ("system.complete", Some "b") ]
                 m)).
Proof.
  assert (exists m, StateMachine silent tt Sample.next = Returned tt m
                    /\ state m = Some "a") as (m & Hm & Hst).
  { eexists. split; vm_compute; reflexivity. }
  destruct (do_next_order silent astray tt Sample.next m [] eq_refl
              (silent_config _) Hm Hst) as [x Hx].
  exists m, x. split; [exact Hm|exact Hx].
Defined.

(** C9 on the sample config and on its deferred variant. *)
Lemma initialize_dispatched_once_witness :
  exists m d,
    StateMachine silent tt Sample.next = Returned tt m
    /\ emitted m = [("system.initialize", Some "a")]
    /\ StateMachine silent tt Sample.deferred = Returned tt d
    /\ emitted d = [("system.initialize", Some "")]
    /\ state d = Some "".
Proof.
  assert (exists m, StateMachine silent tt Sample.next = Returned tt m
                    /\ state m = Some "a") as (m & Hm & Hst).
  { eexists. split; vm_compute; reflexivity. }
  assert (exists d, StateMachine silent tt Sample.deferred = Returned tt d)
    as (d & Hd).
  { eexists. vm_compute. reflexivity. }
  destruct (initialize_dispatched_once silent tt Sample.next m
              (silent_config _) Hm) as (Em & _ & _).
  destruct (initialize_dispatched_once silent tt Sample.deferred d
              (silent_config _) Hd) as (Ed & Sd & _).
  exists m, d. rewrite Hst in Em. rewrite (Sd eq_refl) in Ed.
  repeat split; try assumption. exact (Sd eq_refl).
Defined.

(** C6 on two structured rules over four states. *)
Lemma states_first_occurrence_witness :
  exists m,
    initialize Sample.crossed (blank tt Sample.crossed) = Returned tt m
    /\ NoDup (states m)
    /\ states m = ["a"; "c"; "b"; "d"].
Proof.
  assert (exists m, initialize Sample.crossed (blank tt Sample.crossed)
                    = Returned tt m) as (m & Hm).
  { eexists. vm_compute. reflexivity. }
  destruct (states_first_occurrence tt Sample.crossed m) as (Hnd & Hs).
  - intros r Hr. simpl in Hr.
    apply elem_of_cons in Hr as [->|Hr]; [eauto|].
    apply elem_of_cons in Hr as [->|Hr]; [eauto|].
    inversion Hr.
  - exact Hm.
  - exists m. repeat split; [exact Hm|exact Hnd|]. rewrite Hs. reflexivity.
Defined.

(** C5 on the chain of three states. *)
Lemma shorthand_single_rule_witness :
  addRule (Shorthand "next: a > b > c") (blank tt Sample.chain)
  = Returned tt (add "next" "a" (VString "b > c") (blank tt Sample.chain))
  /\ addRule (Shorthand "next: a < b < c") (blank tt Sample.chain)
     = Returned tt (add "next" "b < c" (VString "a") (blank tt Sample.chain)).
Proof.
  split.
  - apply (shorthand_single_rule "next" "" ":"%char " " "a" " " " " "b > c"
             (blank tt Sample.chain));
      reflexivity.
  - apply (shorthand_single_rule "next" "" ":"%char " " "a" " " " " "b < c"
             (blank tt Sample.chain));
      reflexivity.
Defined.

(** An id with a family and dots, [state.a.leave], is read as family
    [state] and type [a.leave] with no target: the handler goes to the
    wildcard path of that type, not to the path [state.a.leave]. *)
Lemma on_dotted_id :
  on "state.a.leave" (VFunction 5) (midway tt)
  = Returned tt
      (with_handlers (ValueMap.insert "state.*.a.leave" 5 ∅) (midway tt)).
Proof. vm_compute. reflexivity. Qed.


(** C4 on the sample machine: an action that is not permitted, the
    permitted one, and a permitted one whose resolver goes astray. *)
Lemma do_permitted_witness :
  exists m r,
    StateMachine silent tt Sample.next = Returned tt m
    /\ StateMachine silent tt Sample.resolving = Returned tt r
    /\ do silent astray "back" [] m = Returned false m
    /\ (exists m' more,
          do silent astray "next" [] m = Returned true m'
          /\ emitted m' = emitted m ++ ("transition.start", Some "a") :: more)
    /\ do silent astray "next" [] r = Thrown (Error_ "Invalid state zzz") r.
Proof.
  assert (exists m, StateMachine silent tt Sample.next = Returned tt m
                    /\ state m = Some "a"
                    /\ can "back" m = false /\ can "next" m = true
                    /\ Transition_create astray m "next" []
                       = inr (Transition.Build "next" (Some "a") (Some "b") []
                                Transition.schedule false))
    as (m & Hm & Hst & Hback & Hnext & Hcreate).
  { eexists. repeat split; vm_compute; reflexivity. }
  assert (exists r, StateMachine silent tt Sample.resolving = Returned tt r
                    /\ can "next" r = true
                    /\ Transition_create astray r "next" []
                       = inl (Error_ "Invalid state zzz"))
    as (r & Hr & Hcan & Hlost).
  { eexists. repeat split; vm_compute; reflexivity. }
  destruct (do_permitted silent astray m "back" []) as (Hfalse & _).
  destruct (do_permitted silent astray m "next" []) as (_ & _ & _ & Htrue).
  destruct (do_permitted silent astray r "next" []) as (_ & _ & Hthrow & _).
  exists m, r. repeat split; try assumption.
  - apply Hfalse. exact Hback.
  - rewrite <- Hst.
    exact (Htrue _ Hnext Hcreate (silent_observed m)).
  - exact (Hthrow _ Hcan Hlost).
Defined.

(** ** The further properties on sample machines *)

Lemma crossed_structured : Forall structured (Config.events Sample.crossed).
Proof. repeat constructor; unfold structured; eauto. Qed.

Lemma repeated_structured : Forall structured (Config.events Sample.repeated).
Proof. repeat constructor; unfold structured; eauto. Qed.

Lemma ended_structured : Forall structured (Config.events Sample.ended).
Proof. repeat constructor; unfold structured; eauto. Qed.

(** X2 on two structured rules over four states. *)
Lemma compiled_in_step_witness :
  exists m : Machine unit,
    initialize Sample.crossed (blank tt Sample.crossed) = Returned tt m
    /\ inStep m
    /\ is_Some (actions m !! "n.a").
Proof.
  assert (exists m, initialize Sample.crossed (blank tt Sample.crossed)
                    = Returned tt m
                    /\ state m = Some "a" /\ can "n" m = true)
    as (m & Hm & Hst & Hcan).
  { eexists. repeat split; vm_compute; reflexivity. }
  destruct (compiled_in_step tt Sample.crossed m Hm) as [Hstep Hcan'].
  exists m. repeat split; [exact Hm|exact Hstep|].
  exact (Hcan' "n" "a" Hst Hcan).
Defined.

(** X3 on two rules with the same name and origin, and on a state that no
    rule leaves. *)
Lemma compiled_transitions_witness :
  exists m : Machine unit,
    initialize Sample.repeated (blank tt Sample.repeated) = Returned tt m
    /\ transitions m !! "a" = Some ["n"; "n"]
    /\ transitions m !! "c" = None.
Proof.
  assert (exists m, initialize Sample.repeated (blank tt Sample.repeated)
                    = Returned tt m) as (m & Hm).
  { eexists. vm_compute. reflexivity. }
  exists m. repeat split; [exact Hm| |].
  - exact (compiled_transitions tt Sample.repeated m "a"
             repeated_structured Hm).
  - exact (compiled_transitions tt Sample.repeated m "c"
             repeated_structured Hm).
Defined.

(** X4 on two rules with the same name and origin. *)
Lemma compiled_actions_witness :
  exists m : Machine unit,
    initialize Sample.repeated (blank tt Sample.repeated) = Returned tt m
    /\ actions m !! "n.a" = Some (VString "c")
    /\ actions m !! "n.b" = None.
Proof.
  assert (exists m, initialize Sample.repeated (blank tt Sample.repeated)
                    = Returned tt m) as (m & Hm).
  { eexists. vm_compute. reflexivity. }
  exists m. repeat split; [exact Hm| |].
  - exact (compiled_actions tt Sample.repeated m "n.a"
             repeated_structured Hm).
  - exact (compiled_actions tt Sample.repeated m "n.b"
             repeated_structured Hm).
Defined.

(** X5 on two structured rules over four states, in state [a]. *)
Lemma can_compiled_witness :
  exists m : Machine unit,
    initialize Sample.crossed (blank tt Sample.crossed) = Returned tt m
    /\ state m = Some "a"
    /\ (can "n" m = true
        <-> exists to, Structured "n" "a" to ∈ Config.events Sample.crossed)
    /\ (can "m" m = true
        <-> exists to, Structured "m" "a" to ∈ Config.events Sample.crossed).
Proof.
  assert (exists m, initialize Sample.crossed (blank tt Sample.crossed)
                    = Returned tt m
                    /\ state m = Some "a") as (m & Hm & Hst).
  { eexists. split; vm_compute; reflexivity. }
  exists m. split; [exact Hm|]. split; [exact Hst|]. split.
  - exact (can_compiled tt Sample.crossed m "a" "n" crossed_structured
             Hm Hst).
  - exact (can_compiled tt Sample.crossed m "a" "m" crossed_structured
             Hm Hst).
Defined.

(** X6 on two structured rules and on the deferred config. *)
Lemma initial_state_witness :
  exists m d : Machine unit,
    initialize Sample.crossed (blank tt Sample.crossed) = Returned tt m
    /\ state m = Some "a"
    /\ initialize Sample.deferred (blank tt Sample.deferred) = Returned tt d
    /\ state d = Some "".
Proof.
  assert (exists m, initialize Sample.crossed (blank tt Sample.crossed)
                    = Returned tt m) as (m & Hm).
  { eexists. vm_compute. reflexivity. }
  assert (exists d, initialize Sample.deferred (blank tt Sample.deferred)
                    = Returned tt d) as (d & Hd).
  { eexists. vm_compute. reflexivity. }
  destruct (initial_state tt Sample.crossed m Hm) as [_ Hfirst].
  destruct (initial_state tt Sample.deferred d Hd) as [Hstate _].
  exists m, d. repeat split; [exact Hm| |exact Hd|exact Hstate].
  exact (Hfirst "n" "a" (VString "b") _ eq_refl eq_refl eq_refl).
Defined.

(** X7 on a shorthand string with no operator. *)
Lemma malformed_shorthand_witness :
  exists m' : Machine unit,
    StateMachine silent tt Sample.malformed
    = Thrown (TypeError "matches is not iterable") m'
    /\ handlers m' = ∅
    /\ emitted m' = [].
Proof.
  apply (malformed_shorthand silent tt Sample.malformed "next a b").
  - left.
  - reflexivity.
Defined.

(** X8 on [next: a - b]. *)
Lemma shorthand_both_ways_witness :
  addRule (Shorthand "next: a - b") (blank tt Sample.pair)
  = Returned tt
      (add "next" "b" (VString "a")
         (add "next" "a" (VString "b") (blank tt Sample.pair))).
Proof.
  apply (shorthand_both_ways "next" "" ":"%char " " "a" " " " " "b"
           (blank tt Sample.pair));
    reflexivity.
Defined.

(** X9 on the empty id and on an id that begins with a dot, with a handler
    that is not a function. *)
Lemma on_unmatched_id_witness :
  on "" (VString "x") (blank tt Sample.next)
  = Returned tt (blank tt Sample.next)
  /\ on ".next" (VString "x") (blank tt Sample.next)
     = Returned tt (blank tt Sample.next).
Proof.
  split.
  - apply (on_unmatched_id "" (VString "x") (blank tt Sample.next)).
    left. reflexivity.
  - apply (on_unmatched_id ".next" (VString "x") (blank tt Sample.next)).
    right. exists "."%char, "next". split; reflexivity.
Defined.


(** X11 on [start:next]. *)
Lemma on_registers_witness :
  on "start:next" (VFunction 1) (blank tt Sample.guarded)
  = Returned tt
      (with_handlers (registered "action" "start" 1 ["next"] ∅)
         (blank tt Sample.guarded)).
Proof.
  apply (on_registers "start:next" 1 (blank tt Sample.guarded)
           "action" "start" (Some "next") ["next"]);
    vm_compute; reflexivity.
Defined.

(** X12 on [change:a b]: the function is registered twice for
    [system.change]. *)
Lemma on_repeats_handler_witness :
  exists m' : Machine unit,
    on "change:a b" (VFunction 5) (blank tt Sample.next) = Returned tt m'
    /\ handlers m' !! "system.change" = Some [5; 5].
Proof.
  apply (on_repeats_handler "change:a b" 5 (blank tt Sample.next)
           "system" "change" (Some "a b") ["a"; "b"]);
    [vm_compute; reflexivity|vm_compute; reflexivity|discriminate
    |discriminate].
Defined.


(** X14 on the forked machine: [go('c')] runs [skip]. *)
Lemma go_sound_witness :
  exists m' : Machine unit,
    go silent astray "c" (forked tt) = Returned true m'
    /\ exists a s,
         state (forked tt) = Some s /\ "c" ∈ states (forked tt) /\ a <> ""
         /\ can a (forked tt) = true
         /\ actions (forked tt) !! (a ++ "." ++ s)%string
            = Some (VString "c")
         /\ do silent astray a [] (forked tt) = Returned true m'.
Proof.
  assert (exists m', go silent astray "c" (forked tt) = Returned true m')
    as (m' & Hgo).
  { eexists. vm_compute. reflexivity. }
  destruct (go_sound silent astray "c" (forked tt) true m' Hgo) as [_ Hrun].
  exists m'. split; [exact Hgo|]. apply Hrun. reflexivity.
Defined.


(** X16 on the rule of [next], in its target state. *)
Lemma terminal_state_queries_witness :
  exists m : Machine unit,
    initialize Sample.ended (blank tt Sample.ended) = Returned tt m
    /\ state m = Some "b"
    /\ getActionsFor None m = None
    /\ getStatesFor None m
       = inl (TypeError "Cannot read property 'map' of undefined")
    /\ go silent astray "a" m
       = Thrown (TypeError "Cannot read property 'map' of undefined") m.
Proof.
  assert (exists m, initialize Sample.ended (blank tt Sample.ended)
                    = Returned tt m
                    /\ state m = Some "b" /\ states m = ["a"; "b"])
    as (m & Hm & Hst & Hsts).
  { eexists. repeat split; vm_compute; reflexivity. }
  destruct (terminal_state_queries silent astray tt Sample.ended m "b"
              ended_structured Hm Hst eq_refl) as (_ & Hacts & Hget & Hgo).
  exists m. repeat split; try assumption.
  apply Hgo. rewrite Hsts. left.
Defined.

(** X17 on the forked machine and a target that is no state of it. *)
Lemma add_then_go_witness :
  can "jump" (add "jump" "a" (VString "z") (forked tt)) = true
  /\ has "z" (add "jump" "a" (VString "z") (forked tt)) = false
  /\ go silent astray "z" (add "jump" "a" (VString "z") (forked tt))
     = Returned false (add "jump" "a" (VString "z") (forked tt)).
Proof.
  apply (add_then_go silent astray "jump" "a" "z" (forked tt)).
  - reflexivity.
  - apply (bool_decide_unpack _). vm_compute. exact I.
Defined.

(** X18 on the machine stopped in the middle of [next], reset to a name
    that is no state of it. *)
Lemma reset_discards_witness :
  exists x,
    reset silent (Some "zzz") (midway tt)
    = with_target x
        (settled (Some "zzz") [("system.reset", Some "zzz")] (midway tt)).
Proof.
  destruct (reset_discards silent (Some "zzz") (midway tt)
              (silent_observedAt _ _)) as (x & Hreset & _).
  exists x. exact Hreset.
Defined.

(** X19 on the machine stopped in the middle of [next], which is paused
    already. *)
Lemma pause_marks_witness :
  isPaused (pause silent (midway tt)) = true
  /\ state (pause silent (midway tt)) = Some "a"
  /\ emitted (pause silent (midway tt)) = [("transition.pause", Some "a")].
Proof.
  destruct (pause_marks silent (midway tt) _ eq_refl (silent_observedAt _ _))
    as (x & Hpause & Hpaused & Hstate).
  split; [exact Hpaused|]. split; [exact Hstate|].
  rewrite Hpause. reflexivity.
Defined.

(** X20 on the machine stopped in the middle of [next]: [next] starts
    again from [a]. *)
Lemma do_overwrites_witness :
  do silent astray "next" [] (midway tt)
  = do silent astray "next" [] (with_transition None (midway tt)).
Proof.
  rewrite <- (do_overwrites silent astray "next" []
                (transition (midway tt))
                (with_transition None (midway tt))).
  - reflexivity.
  - vm_compute. reflexivity.
  - intros f. vm_compute. discriminate.
Defined.

(** X21 on [start:next] after another handler. *)
Lemma on_appends_witness :
  exists m' : Machine unit,
    on "start:next" (VFunction 1)
      (with_handlers (ValueMap.insert "action.next.start" 4 ∅)
         (blank tt Sample.guarded))
    = Returned tt m'
    /\ handlers m' !! "action.next.start" = Some [4; 1].
Proof.
  assert (exists m',
            on "start:next" (VFunction 1)
              (with_handlers (ValueMap.insert "action.next.start" 4 ∅)
                 (blank tt Sample.guarded))
            = Returned tt m'
            /\ handlers m' !! "action.next.start" = Some [4; 1])
    as (m' & Hon & Hlk).
  { eexists. split; vm_compute; reflexivity. }
  destruct (on_appends "start:next" (VFunction 1)
              (with_handlers (ValueMap.insert "action.next.start" 4 ∅)
                 (blank tt Sample.guarded))) as [Hgrown _].
  destruct (Hgrown m' Hon) as [_ _].
  exists m'. split; [exact Hon|exact Hlk].
Defined.

(** X22 on the sample config: [a] is a state and [next] an action. *)
Lemma config_handler_names_witness :
  exists m : Machine unit,
    initialize Sample.next (blank tt Sample.next) = Returned tt m
    /\ (exists fns,
          handlers m !! "state.a.leave" = Some fns /\ 1 ∈ fns)
    /\ (exists fns,
          handlers m !! "action.next.end" = Some fns /\ 2 ∈ fns).
Proof.
  assert (exists m, initialize Sample.next (blank tt Sample.next)
                    = Returned tt m
                    /\ states m = ["a"; "b"]
                    /\ ValueMap.has "next" (actions m) = true)
    as (m & Hm & Hsts & Hhas).
  { eexists. repeat split; vm_compute; reflexivity. }
  assert (("a", VFunction 1) ∈ Config.handlers Sample.next) as Ha
    by left.
  assert (("next", VFunction 2) ∈ Config.handlers Sample.next) as Hnext
    by (right; left).
  destruct (config_handler_names tt Sample.next m "a" 1 Hm Ha
              eq_refl eq_refl) as [Hstate _].
  destruct (config_handler_names tt Sample.next m "next" 2 Hm Hnext
              eq_refl eq_refl) as [_ Haction].
  exists m. repeat split; [exact Hm| |].
  - apply Hstate. rewrite Hsts. left.
  - apply Haction; [|exact Hhas]. rewrite Hsts.
    apply (bool_decide_unpack _). vm_compute. exact I.
Defined.


(** ** Where the code departs from the specification's wording *)

(** C4 as worded fails: [next] is permitted from [a], yet [do('next')] does
    not return [true], because the resolver of the rule returns a name that
    is not a state and [do] raises. *)
Lemma do_not_iff_can :
  exists m,
    StateMachine silent tt Sample.resolving = Returned tt m
    /\ ~ ((exists m', do silent astray "next" [] m = Returned true m')
          <-> can "next" m = true).
Proof.
  eexists. split; [vm_compute; reflexivity|].
  intros [_ H]. destruct (H eq_refl) as [m' Hm']. vm_compute in Hm'.
  discriminate.
Qed.

(** C5 as worded fails: the chain [next: a > b > c] compiles to the single
    rule from [a] to the text [b > c]; the tables are not those of the two
    rules [a] to [b] and [b] to [c]. *)
Lemma chain_not_expanded :
  exists m,
    initialize Sample.chain (blank tt Sample.chain) = Returned tt m
    /\ actions m = ValueMap.set "next.a" (VString "b > c") ∅
    /\ transitions m = ValueMap.add "a" "next" ∅
    /\ (transitions m, actions m)
       <> (let m' := addChain "next" ["a"; "b"; "c"] (blank tt Sample.chain) in
           (transitions m', actions m')).
Proof.
  eexists. split; [vm_compute; reflexivity|].
  split; [vm_compute; reflexivity|].
  split; [vm_compute; reflexivity|].
  intros E. apply (f_equal (fun p => snd p !! "next.b")) in E.
  vm_compute in E. discriminate.
Qed.

(** C6 as worded fails twice.  With the rules [n: a to b] and [m: c to d]
    the states list is [a, c, b, d], not [a, b, c, d]; and the states that
    only a shorthand string names are not in the list at all. *)
Lemma states_not_as_claimed :
  exists m1 m2,
    initialize Sample.crossed (blank tt Sample.crossed) = Returned tt m1
    /\ states m1 = ["a"; "c"; "b"; "d"]
    /\ statesAsClaimed (Config.events Sample.crossed) = ["a"; "b"; "c"; "d"]
    /\ states m1 <> statesAsClaimed (Config.events Sample.crossed)
    /\ initialize Sample.pair (blank tt Sample.pair) = Returned tt m2
    /\ states m2 = []
    /\ statesAsClaimed (Config.events Sample.pair) = ["a"; "b"]
    /\ states m2 <> statesAsClaimed (Config.events Sample.pair).
Proof.
  eexists. eexists.
  split; [vm_compute; reflexivity|].
  split; [vm_compute; reflexivity|].
  split; [vm_compute; reflexivity|].
  split; [vm_compute; discriminate|].
  split; [vm_compute; reflexivity|].
  split; [vm_compute; reflexivity|].
  split; [vm_compute; reflexivity|].
  vm_compute; discriminate.
Qed.


(** C9 as worded fails: with [config.defer] set, [system.initialize] is
    dispatched once at construction all the same. *)
Lemma initialize_dispatched_when_deferred :
  exists m,
    StateMachine silent tt Sample.deferred = Returned tt m
    /\ Config.defer Sample.deferred = true
    /\ dispatchedTimes "system.initialize" m = 1
    /\ ~ (dispatchedTimes "system.initialize" m = 1
          <-> Config.defer Sample.deferred = false).
Proof.
  eexists. split; [vm_compute; reflexivity|].
  split; [reflexivity|].
  split; [vm_compute; reflexivity|].
  intros [H _]. assert (true = false) as E by (apply H; vm_compute; reflexivity).
  discriminate.
Qed.
